(** * musicfixer: the unflattening algorithm of [music.py]

    A shallow embedding of [src/music.py] and the properties of its
    sanitizer, path planning, move executor and batch runner.

    Conventions of the embedding.
    - A Python [str] is a list of Unicode code points ([text]).
    - [os.path] is its POSIX implementation ([posixpath]), the one whose
      separator the specification writes; [ntpath] is not embedded.
    - The operating system and the metadata library are collaborators of
      the program: they are an interface ([Platform]) over an abstract
      file-system state.  [RefFS] is a reference instance.
    - A function of [os] fails with [OSError], or with [ValueError] for a
      path that cannot be handed to the system (a null character, a
      character without encoding).
    - A computation threads the file-system state and the log, and either
      returns a value or raises an exception; the state survives a raise. *)

From Stdlib Require Import NArith Ascii String.
From stdpp Require Import gmap list strings.

Local Open Scope N_scope.

(** ** Text *)

Abbreviation text := (list N).

(** A string literal of the source, as code points. *)
Definition py (s : string) : text := N_of_ascii <$> String.list_ascii_of_string s.

(** The four characters the sanitizer rewrites, and the dash it writes. *)
Definition SLASH : N := 47.
Definition QUESTION : N := 63.
Definition COLON : N := 58.
Definition DQUOTE : N := 34.
Definition DASH : N := 45.

(** The null character: the one no path may hold. *)
Definition NUL : N := 0.

(** [str.isspace] on one code point: the white-space table of CPython. *)
Definition isspace (c : N) : bool :=
  ((0x09 <=? c) && (c <=? 0x0D)) || ((0x1C <=? c) && (c <=? 0x20))
  || (c =? 0x85) || (c =? 0xA0) || (c =? 0x1680)
  || ((0x2000 <=? c) && (c <=? 0x200A))
  || (c =? 0x2028) || (c =? 0x2029) || (c =? 0x202F) || (c =? 0x205F)
  || (c =? 0x3000).

Fixpoint lstrip (s : text) : text :=
  match s with
  | c :: s' => if isspace c then lstrip s' else s
  | [] => []
  end.

Definition rstrip (s : text) : text := reverse (lstrip (reverse s)).

(** [s.strip()] *)
Definition strip (s : text) : text := rstrip (lstrip s).

(** [s.startswith(p)] *)
Fixpoint startswith (s p : text) {struct p} : bool :=
  match p, s with
  | [], _ => true
  | _ :: _, [] => false
  | a :: p', c :: s' => (c =? a) && startswith s' p'
  end.

(** [s.endswith(p)] *)
Definition endswith (s p : text) : bool := startswith (reverse s) (reverse p).

(** The scan of [str.replace] for a non-empty [old]: left to right, each
    occurrence found is replaced and the scan resumes after it ([skip]
    counts the characters of the occurrence still to pass over). *)
Fixpoint replace_from (old new : text) (skip : nat) (s : text) : text :=
  match s with
  | [] => []
  | c :: s' =>
      match skip with
      | S k => replace_from old new k s'
      | O =>
          if startswith s old
          then new ++ replace_from old new (pred (length old)) s'
          else c :: replace_from old new O s'
      end
  end.

(** [s.replace(old, new)]; an empty [old] matches before every character
    and at the end. *)
Definition replace (s old new : text) : text :=
  match old with
  | [] => new ++ (s ≫= λ c, c :: new)
  | _ :: _ => replace_from old new O s
  end.

(** [sep.join(parts)] *)
Fixpoint str_join (sep : text) (parts : list text) : text :=
  match parts with
  | [] => []
  | [p] => p
  | p :: ps => p ++ sep ++ str_join sep ps
  end.

(** [s.partition(sep)] for a non-empty [sep]: the text before the first
    occurrence, the separator, the text after; without occurrence the text
    itself and two empty texts. *)
Fixpoint partition (s sep : text) : text * text * text :=
  match s with
  | [] => ([], [], [])
  | c :: s' =>
      if startswith s sep then ([], sep, drop (length sep) s)
      else let '(head, found, tail) := partition s' sep in (c :: head, found, tail)
  end.

(** [s.rpartition(sep)] for a non-empty [sep]: the same at the last
    occurrence; without occurrence two empty texts and the text itself. *)
Definition rpartition (s sep : text) : text * text * text :=
  let '(tail, found, head) := partition (reverse s) (reverse sep) in
  if bool_decide (found = []) then ([], [], s)
  else (reverse head, sep, reverse tail).

(** [str(raw)]: a tag value is taken in its text form. *)
Definition str (raw : text) : text := raw.

(** ** The sanitizer (music.py, lines 45-54) *)

Definition fixes : list (text * text) :=
  [ ([SLASH], [DASH]); ([QUESTION], []);
    ([COLON], [DASH]); ([DQUOTE], []) ].

Definition sanitize_file_name_text (raw : text) : text :=
  let s := str raw in
  let s := strip s in
  foldl (λ s fix_, replace s fix_.1 fix_.2) s fixes.

(** The character-wise reading of the replacement list: what becomes of one
    character of the stripped text. *)
Definition sanitize_char (c : N) : text :=
  if decide (c = SLASH) then [DASH]
  else if decide (c = QUESTION) then []
  else if decide (c = COLON) then [DASH]
  else if decide (c = DQUOTE) then []
  else [c].

(** The characters a sanitized text is free of. *)
Definition reserved : list N := [SLASH; QUESTION; COLON; DQUOTE].

(** What the sanitizer does to a character when nothing is removed. *)
Definition dash_char (c : N) : N :=
  if decide (c = SLASH ∨ c = COLON) then DASH else c.

(** A text made of white space only; a text that does not start, or does
    not end, with white space. *)
Definition blank (s : text) : Prop := Forall (λ c, isspace c = true) s.

Definition clean_start (s : text) : bool :=
  match s with
  | c :: _ => negb (isspace c)
  | [] => true
  end.

Definition clean_end (s : text) : bool := clean_start (reverse s).

(** [os.path.join(path, *p)] of [posixpath]: a component that starts with
    the separator restarts the path; otherwise it is appended, after a
    separator unless the path so far is empty or already ends with one.
    Where [os.path] is [ntpath], a component also restarts the path when it
    starts with a backslash or names a drive; that implementation is not
    embedded, and what is proved of joined paths is proved of [posixpath]. *)
Definition join_step (path b : text) : text :=
  if startswith b [SLASH] then b
  else if bool_decide (path = []) || endswith path [SLASH] then path ++ b
  else path ++ [SLASH] ++ b.

Definition os_path_join (a : text) (p : list text) : text := foldl join_step a p.

(** The separator [os.path.join] puts behind [path] before a name. *)
Definition sep_after (path : text) : text :=
  if bool_decide (path = []) || endswith path [SLASH] then [] else [SLASH].

(** ** Constants (music.py, lines 23-27) *)

Definition MUSIC_DIR : text := py "C:\Users\Admin\OneDrive\Music".
Definition ALBUM_TITLE : text := py "TALB".
Definition ARTIST : text := py "TPE1".
Definition TRACK_TITLE : text := py "TIT2".

(** ** Exceptions, log records, computations *)

Inductive os_error :=
  | FileNotFoundError | FileExistsError | NotADirectoryError | IsADirectoryError
  | OSErrorOther.

Inductive exn :=
  | KeyError (key : text)
  | TypeError
  | AttributeError
  | ValueError
  | OSError (e : os_error)
  | MutagenError.

(** How a function of [os] fails: the operating system refuses the call
    ([OSError]), or the path cannot be handed to it at all, because it
    holds a null character or a character the encoding of file names
    does not have ([ValueError], raised before any system call). *)
Inductive os_failure :=
  | Refused (e : os_error)
  | BadPath.

Definition exception_of (f : os_failure) : exn :=
  match f with
  | Refused e => OSError e
  | BadPath => ValueError
  end.

(** What [mutagen.File] returns for a recognised file: its name and its tag
    mapping, [None] when the file carries no tags. *)
Record FileType := { filename : text; tags : option (gmap text text) }.

(** The counters of the batch runner, as the final report prints them. *)
Record summary := {
  TOTAL_FILES : nat;
  MP3_FILES_MOVED : nat;
  JPG_FILES : nat;
  MP3_FILES_EXISTED : nat
}.

Inductive level := DEBUG | INFO | ERROR | STDOUT.

(** One constructor per message the program formats. *)
Inductive message :=
  | MissingKey (file key : text)
  | TrackInfo (album_title track_title artist : text)
  | FileExists (track_new_path : text)
  | Initiating
  | Handling (file : text)
  | ErrorWith (file : text) (e : exn)
  | Finished (s : summary)
  | Old (old : text)
  | New (new : text).

Inductive outcome (A : Type) :=
  | Return (a : A)
  | Raise (e : exn).
Arguments Return {A} a.
Arguments Raise {A} e.

Record world (FS : Type) := World { fs : FS; log : list (level * message) }.
Arguments World {FS} fs log.
Arguments fs {FS} w.
Arguments log {FS} w.

Definition M (FS A : Type) : Type := world FS → outcome A * world FS.

#[export] Instance M_ret {FS} : MRet (M FS) := λ A a w, (Return a, w).

#[export] Instance M_bind {FS} : MBind (M FS) := λ A B k m w,
  match m w with
  | (Return a, w') => k a w'
  | (Raise e, w') => (Raise e, w')
  end.

Definition raise {FS A} (e : exn) : M FS A := λ w, (Raise e, w).

(** [try: m / except KeyError as e: ...]: a [KeyError] raised by [m] is
    handed over as a value, any other exception goes on. *)
Definition try_KeyError {FS A} (m : M FS A) : M FS (text + A) := λ w,
  match m w with
  | (Return a, w') => (Return (inr a), w')
  | (Raise (KeyError k), w') => (Return (inl k), w')
  | (Raise e, w') => (Raise e, w')
  end.

Definition logging {FS} (l : level) (msg : message) : M FS () := λ w,
  (Return (), World (fs w) (log w ++ [(l, msg)])).

(** [for x in l: acc = body(acc, x)] *)
Fixpoint for_each {FS A S} (body : S → A → M FS S) (l : list A) (acc : S) : M FS S :=
  match l with
  | [] => mret acc
  | x :: l' => acc' ← body acc x; for_each body l' acc'
  end.

(** [[x for x in l if p(x)]] *)
Fixpoint comprehension_if {FS A} (p : A → M FS bool) (l : list A) : M FS (list A) :=
  match l with
  | [] => mret []
  | x :: l' =>
      b ← p x;
      r ← comprehension_if p l';
      mret (if (b : bool) then x :: r else r)
  end.

(** ** The collaborators: file system and metadata library *)

(** [sys_exists] and [sys_isdir] are [os.path.exists] and [os.path.isdir],
    which answer [False] where the system call fails or the path cannot be
    handed over; the other functions of [os] raise then. *)
Class Platform (FS : Type) := {
  sys_exists : text → FS → bool;
  sys_isdir : text → FS → bool;
  sys_listdir : text → FS → os_failure + list text;
  sys_mkdir : text → FS → os_failure + FS;
  sys_rename : text → text → FS → os_failure + FS;
  sys_mutagen_File : text → FS → exn + option FileType;
  (** a rename that succeeds leaves its destination in place *)
  sys_rename_exists src dst s s' :
    sys_rename src dst s = inr s' → sys_exists dst s' = true
}.

Section Program.
Context {FS : Type} `{!Platform FS}.

Definition os_path_exists (p : text) : M FS bool := λ w,
  (Return (sys_exists p (fs w)), w).

Definition os_path_isdir (p : text) : M FS bool := λ w,
  (Return (sys_isdir p (fs w)), w).

Definition os_listdir (p : text) : M FS (list text) := λ w,
  match sys_listdir p (fs w) with
  | inr names => (Return names, w)
  | inl e => (Raise (exception_of e), w)
  end.

Definition os_mkdir (p : text) : M FS () := λ w,
  match sys_mkdir p (fs w) with
  | inr s' => (Return (), World s' (log w))
  | inl e => (Raise (exception_of e), w)
  end.

Definition os_rename (src dst : text) : M FS () := λ w,
  match sys_rename src dst (fs w) with
  | inr s' => (Return (), World s' (log w))
  | inl e => (Raise (exception_of e), w)
  end.

Definition mutagen_File (p : text) : M FS (option FileType) := λ w,
  match sys_mutagen_File p (fs w) with
  | inr f => (Return f, w)
  | inl e => (Raise e, w)
  end.

(** [track_file.tags[tag_key]]; [track_file] may be [None], and so may its
    [tags]. *)
Definition tags_getitem (track_file : option FileType) (tag_key : text) : M FS text :=
  match track_file with
  | None => raise AttributeError
  | Some f =>
      match tags f with
      | None => raise TypeError
      | Some m =>
          match m !! tag_key with
          | None => raise (KeyError tag_key)
          | Some t => mret t
          end
      end
  end.

(** [track_file.filename] *)
Definition get_filename (track_file : option FileType) : M FS text :=
  match track_file with
  | None => raise AttributeError
  | Some f => mret (filename f)
  end.

(** music.py, lines 39-42 *)
Definition confirm_or_create_dir (dir_path : text) : M FS bool :=
  e ← os_path_exists dir_path;
  (if negb e then os_mkdir dir_path else mret ());;
  mret true.

(** music.py, lines 57-64 *)
Definition get_tag_value (track_file : option FileType) (tag_key : text) : M FS text :=
  r ← try_KeyError (tags_getitem track_file tag_key);
  match r with
  | inl e =>
      name ← get_filename track_file;
      logging DEBUG (MissingKey name e);;
      mret []
  | inr t => mret (sanitize_file_name_text t)
  end.

(** The three paths music.py computes at lines 83-85. *)
Record locations := Locations {
  artist_dir : text;
  album_dir : text;
  track_new_path : text
}.

(** music.py, lines 67-87: the first half of [unflatten_track_file], from
    the tags to the paths and the report of what was read. *)
Definition plan_track_file (track_file : option FileType) (new_root_dir : text)
    : M FS locations :=
  artist ← tags_getitem track_file ARTIST;
  let artist := sanitize_file_name_text artist in
  album_title ← get_tag_value track_file ALBUM_TITLE;
  track_title ← get_tag_value track_file TRACK_TITLE;
  let album_title :=
    if bool_decide (album_title = []) then py "Unknown Album" else album_title in
  let album_title := replace album_title (py ".mp3") [] in
  let artist_dir := os_path_join new_root_dir [artist] in
  let album_dir := os_path_join artist_dir [album_title] in
  let track_new_path :=
    os_path_join new_root_dir
      [artist; album_title; str_join (py ".") [track_title; py "mp3"]] in
  logging INFO (TrackInfo album_title track_title artist);;
  mret (Locations artist_dir album_dir track_new_path).

(** music.py, lines 67-96: the paths as above, then lines 88-96. *)
Definition unflatten_track_file (track_file : option FileType)
    (original_track_path new_root_dir : text) (dry_run : bool) : M FS bool :=
  loc ← plan_track_file track_file new_root_dir;
  e ← os_path_exists (track_new_path loc);
  if negb e then
    (if negb dry_run then
       confirm_or_create_dir (artist_dir loc);;
       confirm_or_create_dir (album_dir loc);;
       os_rename original_track_path (track_new_path loc)
     else mret ());;
    mret true
  else
    logging INFO (FileExists (track_new_path loc));;
    mret false.

(** The counters [count], [jpg_count], [file_existed_count] of the batch. *)
Record counters := Counters {
  count : nat;
  jpg_count : nat;
  file_existed_count : nat
}.

(** [int(b)] *)
Definition int (b : bool) : nat := if b then 1%nat else 0%nat.

(** music.py, lines 109-118: what the loop does with an audio entry. *)
Definition unflatten_audio_entry (dry_run : bool) (c : counters) (file : text)
    : M FS counters :=
  let track_path := os_path_join MUSIC_DIR [file] in
  track_file ← mutagen_File track_path;
  logging INFO (Handling file);;
  r ← try_KeyError (unflatten_track_file track_file track_path MUSIC_DIR dry_run);
  match r with
  | inl e =>
      logging ERROR (ErrorWith file (KeyError e));;
      mret c
  | inr was_moved =>
      mret (Counters (count c + int was_moved)%nat (jpg_count c)
                     (file_existed_count c + int (negb was_moved))%nat)
  end.

(** music.py, lines 108-120: the body of the loop. *)
Definition unflatten_entry (dry_run : bool) (c : counters) (file : text) : M FS counters :=
  if endswith file (py "mp3") then unflatten_audio_entry dry_run c file
  else if endswith file (py "jpg") then
    mret (Counters (count c) (jpg_count c + 1)%nat (file_existed_count c))
  else mret c.

(** music.py, lines 99-127 *)
Definition mutagen_dialect_unflatten (dry_run : bool) : M FS () :=
  files ← os_listdir MUSIC_DIR;
  let initial_count := length files in
  logging INFO Initiating;;
  c ← for_each (unflatten_entry dry_run) files (Counters 0 0 0);
  logging INFO (Finished {|
    TOTAL_FILES := initial_count;
    MP3_FILES_MOVED := count c;
    JPG_FILES := jpg_count c;
    MP3_FILES_EXISTED := file_existed_count c |}).

(** The body of the innermost loop of music.py, lines 143-150. *)
Definition fix_track (a : text) (dry_run : bool) (_ : ()) (track : text) : M FS () :=
  if negb (endswith track (py ".mp3")) then
    let old := os_path_join a [track] in
    let new := old ++ py ".mp3" in
    logging STDOUT (Old old);;
    logging STDOUT (New new);;
    if negb dry_run then os_rename old new else mret ()
  else mret ().

(** music.py, lines 130-150 *)
Definition fix_missing_file_extensions (root_dir : text) (dry_run : bool) : M FS () :=
  files ← os_listdir root_dir;
  dirs ← comprehension_if (λ f, os_path_isdir (os_path_join root_dir [f])) files;
  for_each (λ _ d,
    let p := os_path_join root_dir [d] in
    albums ← os_listdir p;
    for_each (λ _ album,
      let a := os_path_join p [album] in
      tracks ← os_listdir a;
      for_each (fix_track a dry_run) tracks ()) albums ()) dirs ().

(** music.py, lines 33-35: one turn of the loop over the names, on the
    [defaultdict(int)] of the counts (a key not yet there reads as 0). *)
Definition count_extension (extensions : gmap text nat) (file_name : text)
    : gmap text nat :=
  let ext := (rpartition file_name (py ".")).2 in
  <[ext := (default 0%nat (extensions !! ext) + 1)%nat]> extensions.

(** music.py, lines 30-36.  The source hands the dictionary to
    [logging.info] and returns [None]; here the dictionary is the value of
    the computation. *)
Definition get_aggregate_data (directory : text) : M FS (gmap text nat) :=
  file_names ← os_listdir directory;
  let extensions := foldl count_extension ∅ file_names in
  mret extensions.

(** music.py, lines 163-165 *)
Definition get_audio (file : text) : M FS (option FileType) :=
  let p := os_path_join MUSIC_DIR [file] in
  mutagen_File p.

(** music.py, lines 168-171; the level of the logger does not change what
    is recorded here. *)
Definition main : M FS () := mutagen_dialect_unflatten false.

End Program.

(** ** What the planning computes, read off the tag mapping

    [tag_text m k] is what [get_tag_value] returns for the key [k] of the
    mapping [m], [album_segment m] the value of [album_title] after line 81,
    [track_file_name m] the last component of line 85. *)

Definition tag_text (m : gmap text text) (tag_key : text) : text :=
  from_option sanitize_file_name_text [] (m !! tag_key).

Definition album_segment (m : gmap text text) : text :=
  replace
    (if bool_decide (tag_text m ALBUM_TITLE = []) then py "Unknown Album"
     else tag_text m ALBUM_TITLE)
    (py ".mp3") [].

Definition track_file_name (m : gmap text text) : text :=
  tag_text m TRACK_TITLE ++ py ".mp3".

(** The debug records of the optional lookups of a track. *)
Definition missing_keys (name : text) (m : gmap text text) : list (level * message) :=
  (if m !! ALBUM_TITLE is None then [(DEBUG, MissingKey name ALBUM_TITLE)] else [])
  ++ (if m !! TRACK_TITLE is None then [(DEBUG, MissingKey name TRACK_TITLE)] else []).


(** ** A reference file system

    Path names are kept as written: the state maps each existing path name
    to what lies there, so two spellings of one place (a doubled
    separator, a segment of one or two dots) are two names, and names that
    differ in case are different.  A file is reduced to what
    [mutagen.File] reads from it.  Every call is permitted and nothing
    runs out: there are no access rights and no limits on the number or
    the length of names. *)

Module RefFS.

Inductive content :=
  | Audio (id3 : option (gmap text text))
  | Other.

Inductive node :=
  | Dir
  | File (c : content).

Abbreviation state := (gmap text node).

(** The text after the last separator, read from the end: [drop_name] leaves
    the reversed head of a path, [drop_seps] takes separators off it. *)
Fixpoint drop_name (s : text) : text :=
  match s with
  | c :: s' => if c =? SLASH then s else drop_name s'
  | [] => []
  end.

Fixpoint drop_seps (s : text) : text :=
  match s with
  | c :: s' => if c =? SLASH then drop_seps s' else s
  | [] => []
  end.

Fixpoint take_name (s : text) : text :=
  match s with
  | c :: s' => if c =? SLASH then [] else c :: take_name s'
  | [] => []
  end.

(** [posixpath.dirname] *)
Definition dirname (p : text) : text :=
  let head := reverse (drop_name (reverse p)) in
  if bool_decide (head ≠ []) && negb (forallb (N.eqb SLASH) head)
  then reverse (drop_seps (reverse head))
  else head.

(** [posixpath.basename] *)
Definition basename (p : text) : text := reverse (take_name (reverse p)).

(** A path the system takes: one without null character, made of
    characters that UTF-8 encodes (no surrogate, nothing beyond the last
    code point). *)
Definition representable (p : text) : bool :=
  forallb (λ c, negb (c =? NUL) && (c <=? 0x10FFFF)
                && negb ((0xD800 <=? c) && (c <=? 0xDFFF))) p.

Definition exists_ (p : text) (s : state) : bool :=
  representable p && bool_decide (is_Some (s !! p)).

Definition isdir (p : text) (s : state) : bool :=
  representable p && match s !! p with Some Dir => true | _ => false end.

(** The entries directly under [d]: the paths whose directory part is [d]
    and whose last component is a name. *)
Definition listdir (d : text) (s : state) : os_failure + list text :=
  if negb (representable d) then inl BadPath else
  match s !! d with
  | None => inl (Refused FileNotFoundError)
  | Some (File _) => inl (Refused NotADirectoryError)
  | Some Dir =>
      inr (omap (λ '(p, _),
             if bool_decide (dirname p = d ∧ basename p ≠ [] ∧ p ≠ d)
             then Some (basename p) else None) (map_to_list s))
  end.

Definition mkdir (p : text) (s : state) : os_failure + state :=
  if negb (representable p) then inl BadPath
  else if exists_ p s then inl (Refused FileExistsError)
  else match s !! dirname p with
       | Some Dir => inr (<[p := Dir]> s)
       | Some (File _) => inl (Refused NotADirectoryError)
       | None => inl (Refused FileNotFoundError)
       end.

(** Where a path under the directory [src] lies once [src] is [dst]. *)
Definition rekey (src dst p : text) : text :=
  if startswith p (src ++ [SLASH]) then dst ++ drop (length src) p else p.

Definition has_entries (d : text) (s : state) : bool :=
  bool_decide (Exists (λ p, startswith p (d ++ [SLASH]) = true) (map_to_list s).*1).

(** [src] is taken out and put at [dst], with all that lies under it when
    it is a directory. *)
Definition move (src dst : text) (n : node) (s : state) : state :=
  let rest := delete src s in
  <[dst := n]>
    match n with
    | File _ => rest
    | Dir => map_fold (λ p x acc, <[rekey src dst p := x]> acc) ∅ rest
    end.

Definition rename (src dst : text) (s : state) : os_failure + state :=
  if negb (representable src && representable dst) then inl BadPath else
  match s !! src with
  | None => inl (Refused FileNotFoundError)
  | Some n =>
      if bool_decide (src = dst) then inr s
      else match s !! dirname dst with
      | None => inl (Refused FileNotFoundError)
      | Some (File _) => inl (Refused NotADirectoryError)
      | Some Dir =>
          match s !! dst, n with
          | None, File _ => inr (move src dst n s)
          | None, Dir =>
              if startswith dst (src ++ [SLASH]) then inl (Refused OSErrorOther)
              else inr (move src dst n s)
          | Some (File _), File _ => inr (move src dst n s)
          | Some Dir, File _ => inl (Refused IsADirectoryError)
          | Some (File _), Dir => inl (Refused NotADirectoryError)
          | Some Dir, Dir =>
              if has_entries dst s then inl (Refused OSErrorOther)
              else inr (move src dst n s)
          end
      end
  end.

(** [mutagen.File] opens the file first: a path that cannot be handed over
    is the [ValueError] of [open]. *)
Definition mutagen_File (p : text) (s : state) : exn + option FileType :=
  if negb (representable p) then inl ValueError else
  match s !! p with
  | Some (File (Audio id3)) => inr (Some {| filename := p; tags := id3 |})
  | Some (File Other) => inr None
  | Some Dir | None => inl MutagenError
  end.

Lemma rename_exists src dst s s' :
  rename src dst s = inr s' → exists_ dst s' = true.
Proof.
  unfold rename, exists_. intros H.
  assert (Hmove : ∀ n, is_Some (move src dst n s !! dst)).
  { intros n. unfold move. rewrite lookup_insert_eq. eauto. }
  destruct (representable src) eqn:Hrs; [|done].
  destruct (representable dst) eqn:Hrd; [|done]. cbn [andb negb] in H |- *.
  destruct (s !! src) as [n|] eqn:Hsrc; [|done].
  case_bool_decide as Heq.
  { simplify_eq. apply bool_decide_eq_true. eauto. }
  destruct (s !! dirname dst) as [[]|]; try done.
  apply bool_decide_eq_true.
  destruct (s !! dst) as [[]|], n; try done;
    repeat case_match; simplify_eq; apply Hmove.
Qed.

#[global] Instance platform : Platform state := {|
  sys_exists := exists_;
  sys_isdir := isdir;
  sys_listdir := listdir;
  sys_mkdir := mkdir;
  sys_rename := rename;
  sys_mutagen_File := mutagen_File;
  sys_rename_exists := rename_exists
|}.

End RefFS.

(** ** Decidable equality of what a run yields *)

#[global] Instance os_error_eq_dec : EqDecision os_error.
Proof. solve_decision. Defined.
#[global] Instance os_failure_eq_dec : EqDecision os_failure.
Proof. solve_decision. Defined.
#[global] Instance exn_eq_dec : EqDecision exn.
Proof. solve_decision. Defined.
#[global] Instance summary_eq_dec : EqDecision summary.
Proof. solve_decision. Defined.
#[global] Instance level_eq_dec : EqDecision level.
Proof. solve_decision. Defined.
#[global] Instance message_eq_dec : EqDecision message.
Proof. solve_decision. Defined.
#[global] Instance counters_eq_dec : EqDecision counters.
Proof. solve_decision. Defined.
#[global] Instance content_eq_dec : EqDecision RefFS.content.
Proof. solve_decision. Defined.
#[global] Instance node_eq_dec : EqDecision RefFS.node.
Proof. solve_decision. Defined.
#[global] Instance locations_eq_dec : EqDecision locations.
Proof. solve_decision. Defined.
#[global] Instance outcome_eq_dec {A : Type} `{!EqDecision A} : EqDecision (outcome A).
Proof. solve_decision. Defined.
#[global] Instance world_eq_dec {S : Type} `{!EqDecision S} : EqDecision (world S).
Proof. solve_decision. Defined.

(** The value an outcome returns, [d] when it raises. *)
Definition returned {A} (o : outcome A) (d : A) : A :=
  match o with Return a => a | Raise _ => d end.

(** ** The tracks and the directory of the examples *)

(** The tags of the example of the path planner. *)
Definition daft_punk : gmap text text :=
  {[ ARTIST := py "Daft Punk"; ALBUM_TITLE := py "Discovery";
     TRACK_TITLE := py "One More Time" ]}.

Module Scenario.
Import RefFS.

Definition in_music (name : text) : text := os_path_join MUSIC_DIR [name].

Definition one : text := py "one.mp3".
Definition two : text := py "two.mp3".
Definition three : text := py "three.mp3".
Definition cover : text := py "cover.jpg".
Definition back : text := py "back.jpg".

Definition tags_one : gmap text text := daft_punk.
Definition tags_two : gmap text text :=
  {[ ARTIST := py "AC/DC"; ALBUM_TITLE := py "High Voltage";
     TRACK_TITLE := py "T.N.T." ]}.
Definition tags_three : gmap text text :=
  {[ ALBUM_TITLE := py "Lost"; TRACK_TITLE := py "Nobody" ]}.

Definition names : list text := [one; two; three; cover; back].

Definition music_dir : state :=
  {[ MUSIC_DIR := Dir;
     in_music one := File (Audio (Some tags_one));
     in_music two := File (Audio (Some tags_two));
     in_music three := File (Audio (Some tags_three));
     in_music cover := File Other;
     in_music back := File Other ]}.

Definition target_one : text := in_music (py "Daft Punk/Discovery/One More Time.mp3").
Definition target_two : text := in_music (py "AC-DC/High Voltage/T.N.T..mp3").

(** The tracks of the directory as [mutagen.File] returns them, a track
    with no album tag and one whose album tag is an extension. *)
Definition track_one : option FileType :=
  Some {| filename := in_music one; tags := Some tags_one |}.
Definition track_three : option FileType :=
  Some {| filename := in_music three; tags := Some tags_three |}.

Definition tags_no_album : gmap text text :=
  {[ ARTIST := py "AC/DC"; TRACK_TITLE := py " T.N.T. " ]}.
Definition tags_extension_album : gmap text text :=
  {[ ARTIST := py "Moby"; ALBUM_TITLE := py ".mp3"; TRACK_TITLE := py "Porcelain" ]}.

(** The directory before anything is moved, and with the first track
    already at its destination. *)
Definition flat : world state := World music_dir [].
Definition organised : world state :=
  World (<[target_one := File (Audio (Some tags_one))]> music_dir) [].

End Scenario.

(** ** Readings for the properties of the other functions *)

(** The dot of an extension. *)
Definition DOT : N := 46.

(** The extension [get_aggregate_data] counts a name under. *)
Definition extension (file_name : text) : text := (rpartition file_name (py ".")).2.

(** The sum of the counts of a dictionary. *)
Definition total (extensions : gmap text nat) : nat :=
  map_fold (λ _ n acc, (n + acc)%nat) 0%nat extensions.

(** The number of error records of a log. *)
Definition errors (lg : list (level * message)) : nat :=
  length (filter (λ r, r.1 = ERROR) lg).

(** The names of a listing the batch takes for audio files, and for images. *)
Definition audio_names (files : list text) : list text :=
  filter (λ file, endswith file (py "mp3") = true) files.
Definition image_names (files : list text) : list text :=
  filter (λ file, endswith file (py "jpg") = true) files.

(** ** More tracks and directories for the examples *)

Module Examples.
Import RefFS Scenario.

(** A second source with the tags of the first track, and a source that
    is not in the directory. *)
Definition copy : text := in_music (py "copy.mp3").
Definition gone : text := in_music (py "gone.mp3").
Definition track_copy : option FileType :=
  Some {| filename := copy; tags := Some tags_one |}.

(** Tags without title, and tags whose artist is white space. *)
Definition tags_untitled : gmap text text :=
  {[ ARTIST := py "Moby"; ALBUM_TITLE := py "Play" ]}.
Definition tags_blank_artist : gmap text text :=
  {[ ARTIST := py "  "; ALBUM_TITLE := py "Play"; TRACK_TITLE := py "Porcelain" ]}.

(** The directory of the scenario with another artist for the first
    track: the name of an image of the directory. *)
Definition tags_clash : gmap text text :=
  {[ ARTIST := py "cover.jpg"; ALBUM_TITLE := py "Discovery";
     TRACK_TITLE := py "One More Time" ]}.
Definition clash : world state :=
  World {[ MUSIC_DIR := Dir;
           in_music one := File (Audio (Some tags_clash));
           in_music two := File (Audio (Some tags_two));
           in_music three := File (Audio (Some tags_three));
           in_music cover := File Other;
           in_music back := File Other ]} [].

(** A directory whose only entry is an audio file without tags. *)
Definition raw : text := py "raw.mp3".
Definition untagged : world state :=
  World {[ MUSIC_DIR := Dir; in_music raw := File (Audio None) ]} [].

End Examples.

(** ** Tracks in the states of a batch on the reference file system *)

Module Moves.
Import RefFS.

(** The state once the file [c] at [src] has been moved to [T] under the
    directories [A] and [B]. *)
Definition moved (src A B T : text) (c : content) (st : state) : state :=
  <[T := File c]> (delete src (<[B := Dir]> (<[A := Dir]> st))).

(** Where a track of the state [s] stands in a later state [st]: moved
    from [src] to [T] under [A] and [B], or still at [src] with nothing at
    [T]; its directories may have been made for another track. *)
Definition track_ok (s : state) (done : bool) (src A B T : text) (st : state) : Prop :=
  st !! T = (if done then s !! src else None) ∧
  st !! src = (if done then None else s !! src) ∧
  (st !! A = Some Dir ∨ (done = false ∧ st !! A = None)) ∧
  (st !! B = Some Dir ∨ (done = false ∧ st !! B = None)).

(** The number of separators of a path. *)
Definition depth (p : text) : nat := length (filter (λ c, c = SLASH) p).

(** Two tracks of [s] in a later state: each as [track_ok] has it, and
    nothing else changed. *)
Definition batch_inv (s : state)
    (done1 : bool) (S1 A1 B1 T1 : text) (done2 : bool) (S2 A2 B2 T2 : text)
    (st : state) : Prop :=
  (∀ p, p ∉ [S1; A1; B1; T1; S2; A2; B2; T2] → st !! p = s !! p) ∧
  track_ok s done1 S1 A1 B1 T1 st ∧ track_ok s done2 S2 A2 B2 T2 st.

End Moves.

(** * Properties *)

(** ** Text *)

Example py_literals :
  py "/" = [SLASH] ∧ py "?" = [QUESTION] ∧ py ":" = [COLON] ∧ py "-" = [DASH].
Proof. done. Qed.

Example sanitize_sample :
  sanitize_file_name_text (py "  AC/DC: Who Made Who?  ") = py "AC-DC- Who Made Who".
Proof. reflexivity. Qed.

Example replace_samples :
  replace (py "abcabc") (py "bc") (py "X") = py "aXaX" ∧
  replace (py "aaa") (py "aa") (py "b") = py "ba" ∧
  replace (py "ab") [] (py "-") = py "-a-b-" ∧
  replace (py "x.mp3.mp3y") (py ".mp3") [] = py "xy" ∧
  replace (py ".m.mp3p3") (py ".mp3") [] = py ".mp3".
Proof. done. Qed.

Example join_samples :
  os_path_join (py "R") [py "a"; py "b.mp3"] = py "R/a/b.mp3" ∧
  os_path_join (py "R/") [py "a"] = py "R/a" ∧
  os_path_join [] [py "a"] = py "a" ∧
  os_path_join (py "R") [[]; []; py "x.mp3"] = py "R/x.mp3" ∧
  os_path_join (py "R") [py "a"; py "/b"] = py "/b".
Proof. done. Qed.

Example dirname_samples :
  RefFS.dirname (py "R/a/b.mp3") = py "R/a" ∧ RefFS.dirname (py "R/a//") = py "R/a" ∧
  RefFS.dirname (py "//a") = py "//" ∧ RefFS.dirname (py "a") = [] ∧
  RefFS.basename (py "R/a/b.mp3") = py "b.mp3".
Proof. done. Qed.

Section Text.
Implicit Types (s p r : text) (c : N).

Lemma startswith_spec s p : startswith s p = true ↔ ∃ r, s = p ++ r.
Proof.
  revert s. induction p as [|a p IH]; intros s; simpl.
  - split; [intros _; by exists s | done].
  - destruct s as [|c s]; simpl.
    + split; [done | intros [r Hr]; done].
    + rewrite andb_true_iff, N.eqb_eq, IH. split.
      * intros [-> [r ->]]. eauto.
      * intros [r Hr]. simplify_eq. eauto.
Qed.

Lemma endswith_spec s p : endswith s p = true ↔ ∃ r, s = r ++ p.
Proof.
  unfold endswith. rewrite startswith_spec. split.
  - intros [r Hr]. exists (reverse r).
    apply (inj reverse). by rewrite reverse_app, reverse_involutive.
  - intros [r ->]. exists (reverse r). by rewrite reverse_app.
Qed.

Lemma replace_char s c new :
  replace s [c] new = s ≫= λ x, if decide (x = c) then new else [x].
Proof.
  unfold replace. induction s as [|x s IH]; [done|].
  cbn [replace_from startswith length pred mbind list_bind].
  rewrite IH, andb_true_r. case_decide as Hx.
  - subst. by rewrite N.eqb_refl.
  - by rewrite (proj2 (N.eqb_neq _ _) Hx).
Qed.

Lemma list_bind_assoc {A B C} (f : A → list B) (g : B → list C) (l : list A) :
  (l ≫= f) ≫= g = l ≫= λ x, f x ≫= g.
Proof.
  induction l as [|x l IH]; [done|].
  by rewrite !bind_cons, bind_app, IH.
Qed.

Lemma sanitize_char_other c : c ∉ reserved → sanitize_char c = [c].
Proof.
  intros Hc. unfold sanitize_char.
  repeat case_decide; subst; try done; exfalso; apply Hc; unfold reserved; set_solver.
Qed.

Lemma sanitize_char_clean c x : x ∈ sanitize_char c → x ∉ reserved.
Proof.
  unfold sanitize_char, reserved. rewrite !elem_of_cons, elem_of_nil.
  repeat case_decide; subst; rewrite ?elem_of_cons, ?elem_of_nil; intros Hx;
    intuition (subst; done).
Qed.

Lemma bind_sanitize_char_id s :
  Forall (λ c, c ∉ reserved) s → s ≫= sanitize_char = s.
Proof.
  induction 1 as [|c s Hc _ IH]; [done|].
  by rewrite bind_cons, IH, sanitize_char_other.
Qed.

Lemma sanitize_unfold x :
  sanitize_file_name_text x = strip x ≫= sanitize_char.
Proof.
  unfold sanitize_file_name_text, fixes, str. cbn [foldl fst snd].
  rewrite !replace_char, !list_bind_assoc.
  apply list_bind_ext; [|done]. intros c. unfold sanitize_char.
  repeat (case_decide; subst; cbn); try done.
Qed.

Lemma sanitize_clean x c : c ∈ sanitize_file_name_text x → c ∉ reserved.
Proof.
  rewrite sanitize_unfold, list_elem_of_bind. intros (y & Hc & _).
  by eapply sanitize_char_clean.
Qed.

(** *** Stripping *)

Lemma lstrip_split s : ∃ l, s = l ++ lstrip s ∧ blank l.
Proof.
  induction s as [|c s (l & Hl & Hb)].
  { exists []. split; [done | constructor]. }
  simpl. destruct (isspace c) eqn:Hc.
  - exists (c :: l). split; [by rewrite Hl at 1 | by constructor].
  - exists []. split; [done | constructor].
Qed.

Lemma lstrip_clean_start s : clean_start (lstrip s) = true.
Proof.
  induction s as [|c s IH]; [done|].
  simpl. destruct (isspace c) eqn:Hc; [done|]. simpl. by rewrite Hc.
Qed.

Lemma lstrip_id s : clean_start s = true → lstrip s = s.
Proof. destruct s as [|c s]; [done|]. simpl. by destruct (isspace c). Qed.

Lemma rstrip_split s : ∃ r, s = rstrip s ++ r ∧ blank r.
Proof.
  unfold rstrip. destruct (lstrip_split (reverse s)) as (l & Hl & Hb).
  exists (reverse l). split.
  - apply (inj reverse). by rewrite reverse_app, !reverse_involutive.
  - unfold blank. by rewrite Forall_reverse.
Qed.

Lemma rstrip_clean_end s : clean_end (rstrip s) = true.
Proof.
  unfold clean_end, rstrip. rewrite reverse_involutive. apply lstrip_clean_start.
Qed.

Lemma rstrip_id s : clean_end s = true → rstrip s = s.
Proof.
  unfold clean_end, rstrip. intros H. by rewrite lstrip_id, reverse_involutive.
Qed.

Lemma rstrip_clean_start s : clean_start s = true → clean_start (rstrip s) = true.
Proof.
  destruct (rstrip_split s) as (r & Hs & _). intros H.
  destruct (rstrip s) as [|c t]; [done|]. by rewrite Hs in H.
Qed.

Lemma strip_split s : ∃ l r, s = l ++ strip s ++ r ∧ blank l ∧ blank r.
Proof.
  destruct (lstrip_split s) as (l & Hl & Hbl).
  destruct (rstrip_split (lstrip s)) as (r & Hr & Hbr).
  exists l, r. unfold strip. by rewrite <- Hr.
Qed.

Lemma strip_clean s : clean_start (strip s) = true ∧ clean_end (strip s) = true.
Proof.
  split; [apply rstrip_clean_start, lstrip_clean_start | apply rstrip_clean_end].
Qed.

Lemma strip_id s : clean_start s = true → clean_end s = true → strip s = s.
Proof. intros H1 H2. unfold strip. by rewrite lstrip_id, rstrip_id. Qed.

Lemma strip_fixed s : strip s = s ↔ clean_start s = true ∧ clean_end s = true.
Proof.
  split; [intros <-; apply strip_clean | intros []; by apply strip_id].
Qed.

Lemma strip_idemp s : strip (strip s) = strip s.
Proof. apply strip_fixed, strip_clean. Qed.

Lemma strip_subseteq s c : c ∈ strip s → c ∈ s.
Proof.
  destruct (strip_split s) as (l & r & Hs & _). rewrite Hs at 2. set_solver.
Qed.

Lemma lstrip_fmap (g : N → N) s :
  (∀ c, isspace (g c) = isspace c) → lstrip (g <$> s) = g <$> lstrip s.
Proof.
  intros Hg. induction s as [|c s IH]; [done|].
  cbn. rewrite Hg. by destruct (isspace c).
Qed.

Lemma strip_fmap (g : N → N) s :
  (∀ c, isspace (g c) = isspace c) → strip (g <$> s) = g <$> strip s.
Proof.
  intros Hg. unfold strip, rstrip.
  by rewrite lstrip_fmap, <- fmap_reverse, lstrip_fmap, fmap_reverse.
Qed.


(** *** Replacing *)

Lemma replace_from_skip old new l s :
  replace_from old new (length l) (l ++ s) = replace_from old new 0 s.
Proof. induction l as [|c l IH]; [by destruct s|done]. Qed.

Lemma startswith_app s p : startswith (p ++ s) p = true.
Proof. apply startswith_spec. by exists s. Qed.

(** An occurrence at the front is replaced and the scan goes on behind it. *)
Lemma replace_occurrence old new s :
  old ≠ [] → replace (old ++ s) old new = new ++ replace s old new.
Proof.
  destruct old as [|a old]; [done|]. intros _. unfold replace.
  change ((a :: old) ++ s) with (a :: (old ++ s)).
  cbn [replace_from]. change (a :: (old ++ s)) with ((a :: old) ++ s).
  rewrite startswith_app. cbn [length pred]. by rewrite replace_from_skip.
Qed.

Lemma replace_copies old n :
  old ≠ [] → replace (mjoin (replicate n old)) old [] = [].
Proof.
  intros Hold. induction n as [|n IH]; [by destruct old|].
  change (mjoin (replicate (S n) old)) with (old ++ mjoin (replicate n old)).
  by rewrite replace_occurrence, IH.
Qed.

(** *** Joining paths *)

Lemma endswith_snoc s c a : endswith (s ++ [c]) [a] = (c =? a).
Proof.
  unfold endswith. rewrite reverse_app. cbn. by rewrite andb_true_r.
Qed.

Lemma join_step_empty path b : join_step (join_step path []) b = join_step path b.
Proof.
  unfold join_step at 2. cbn [startswith].
  destruct (bool_decide (path = []) || endswith path [SLASH]) eqn:Hp.
  - by rewrite app_nil_r.
  - unfold join_step. destruct (startswith b [SLASH]); [done|].
    rewrite Hp. rewrite app_nil_r, endswith_snoc, N.eqb_refl, orb_true_r.
    by rewrite <- (assoc_L (++)).
Qed.

(** A path and a name that does not start with the separator. *)
Lemma join_step_name path b :
  startswith b [SLASH] = false →
  join_step path b =
  path ++ (if bool_decide (path = []) || endswith path [SLASH] then [] else [SLASH]) ++ b.
Proof. intros Hb. unfold join_step. rewrite Hb. by case_match. Qed.

Lemma name_not_absolute b : SLASH ∉ b → startswith b [SLASH] = false.
Proof.
  destruct b as [|c b]; [done|]. rewrite not_elem_of_cons. intros [Hc _].
  cbn. rewrite andb_true_r. apply N.eqb_neq. congruence.
Qed.

Lemma sep_after_name path b : b ≠ [] → SLASH ∉ b → sep_after (path ++ b) = [SLASH].
Proof.
  intros Hb Hs. unfold sep_after.
  destruct (decide (b = [])) as [|_]; [done|].
  assert (∃ b' c, b = b' ++ [c]) as (b' & c & ->).
  { clear Hs. induction b as [|x b IH] using rev_ind; [done|]. eauto. }
  rewrite (assoc_L (++)), endswith_snoc.
  rewrite bool_decide_eq_false_2 by (by destruct (path ++ b')).
  rewrite (proj2 (N.eqb_neq c SLASH)); [done|].
  intros ->. apply Hs. set_solver.
Qed.

(** Joined names are the names with separators between them. *)
Lemma os_path_join_names root names :
  Forall (λ b, b ≠ [] ∧ SLASH ∉ b) names → names ≠ [] →
  os_path_join root names = root ++ sep_after root ++ str_join [SLASH] names.
Proof.
  intros Hn. revert root. induction Hn as [|b bs [Hb Hs] Hbs IH]; [done|].
  intros root _. unfold os_path_join. cbn [foldl].
  rewrite join_step_name by by apply name_not_absolute.
  fold (sep_after root). destruct bs as [|b2 bs]; [done|].
  fold (os_path_join (root ++ sep_after root ++ b) (b2 :: bs)).
  rewrite IH by done.
  rewrite (assoc_L (++) root), sep_after_name by done.
  cbn [str_join]. by rewrite <- !(assoc_L (++)).
Qed.

(** C4.  The sanitized text has none of the four reserved characters
    (slash, question mark, colon, double quote), and it is the input
    without the white space at its two ends, with each of those four
    rewritten (slash and colon into a dash, question mark and double quote
    into nothing) and every other character as it was. *)
Theorem sanitize_character_safety x :
  (∀ c, c ∈ reserved → c ∉ sanitize_file_name_text x) ∧
  (∃ l r, x = l ++ strip x ++ r ∧ blank l ∧ blank r) ∧
  sanitize_file_name_text x = strip x ≫= sanitize_char ∧
  (∀ c, c ∉ reserved → sanitize_char c = [c]) ∧
  sanitize_char SLASH = [DASH] ∧ sanitize_char QUESTION = [] ∧
  sanitize_char COLON = [DASH] ∧ sanitize_char DQUOTE = [].
Proof.
  split_and!; try done.
  - intros c Hc Hin. by apply sanitize_clean in Hin.
  - apply strip_split.
  - apply sanitize_unfold.
  - apply sanitize_char_other.
Qed.

Lemma bind_sanitize_char_dash s :
  QUESTION ∉ s → DQUOTE ∉ s → s ≫= sanitize_char = dash_char <$> s.
Proof.
  induction s as [|c s IH]; [done|].
  rewrite !not_elem_of_cons. intros [Hq ?] [Hd ?].
  rewrite bind_cons, fmap_cons, IH by done. f_equal.
  unfold sanitize_char, dash_char.
  repeat case_decide; try done; exfalso; intuition congruence.
Qed.

Lemma isspace_dash_char c : isspace (dash_char c) = isspace c.
Proof. unfold dash_char. case_decide as Hc; [|done]. by destruct Hc as [-> | ->]. Qed.

Lemma sanitize_twice_strip x :
  sanitize_file_name_text (sanitize_file_name_text x) = strip (sanitize_file_name_text x).
Proof.
  rewrite (sanitize_unfold (sanitize_file_name_text x)).
  apply bind_sanitize_char_id, Forall_forall. intros c Hc%strip_subseteq.
  by eapply sanitize_clean.
Qed.

(** C5, as the code has it.  A second pass only strips: it is the first
    output without the white space at its ends.  It changes nothing when
    the input has no question mark and no double quote (whose removal is
    what can leave white space at an end), and a third pass never changes
    anything. *)
Theorem sanitize_twice x :
  sanitize_file_name_text (sanitize_file_name_text x) = strip (sanitize_file_name_text x) ∧
  (QUESTION ∉ x → DQUOTE ∉ x →
     sanitize_file_name_text (sanitize_file_name_text x) = sanitize_file_name_text x) ∧
  sanitize_file_name_text (sanitize_file_name_text (sanitize_file_name_text x))
  = sanitize_file_name_text (sanitize_file_name_text x).
Proof.
  split_and!.
  - apply sanitize_twice_strip.
  - intros Hq Hd. rewrite sanitize_twice_strip, sanitize_unfold.
    rewrite bind_sanitize_char_dash by (intros ?%strip_subseteq; done).
    rewrite strip_fmap by apply isspace_dash_char. by rewrite strip_idemp.
  - rewrite (sanitize_twice_strip (sanitize_file_name_text x)).
    rewrite sanitize_twice_strip. apply strip_idemp.
Qed.

Lemma sanitize_twice_witness :
  sanitize_file_name_text (sanitize_file_name_text (py " AC/DC: Back in Black "))
  = sanitize_file_name_text (py " AC/DC: Back in Black ").
Proof.
  refine (proj1 (proj2 (sanitize_twice (py " AC/DC: Back in Black "))) _ _);
    compute_done.
Defined.

(** C5 as stated fails: the question mark at the front of the input below
    goes after the stripping, and the blank behind it is left at the front
    of the output. *)
Lemma sanitize_not_idempotent :
  sanitize_file_name_text (py "? a") = py " a" ∧
  sanitize_file_name_text (sanitize_file_name_text (py "? a")) = py "a" ∧
  sanitize_file_name_text (sanitize_file_name_text (py "? a"))
  ≠ sanitize_file_name_text (py "? a").
Proof. split_and!; [reflexivity..|discriminate]. Qed.

End Text.

(** ** Runs of the program *)

Section Runs.
Context {FS : Type} `{!Platform FS}.
Implicit Types (w : world FS) (m : gmap text text) (f : FileType).

Lemma bind_run {A B} (c : M FS A) (k : A → M FS B) w :
  (c ≫= k) w =
  match c w with
  | (Return a, w') => k a w'
  | (Raise e, w') => (Raise e, w')
  end.
Proof. done. Qed.

Lemma get_tag_value_run f m key w :
  tags f = Some m →
  get_tag_value (Some f) key w =
  (Return (tag_text m key),
   World (fs w) (log w ++ if m !! key is None then [(DEBUG, MissingKey (filename f) key)] else [])).
Proof.
  intros Hm. unfold get_tag_value, tag_text.
  rewrite bind_run. unfold try_KeyError, tags_getitem. rewrite Hm.
  destruct (m !! key) as [t|]; simpl.
  - destruct w. by rewrite app_nil_r.
  - done.
Qed.

Lemma plan_track_file_run f m a root w :
  tags f = Some m → m !! ARTIST = Some a →
  let artist := sanitize_file_name_text a in
  plan_track_file (Some f) root w =
  (Return {|
     artist_dir := os_path_join root [artist];
     album_dir := os_path_join (os_path_join root [artist]) [album_segment m];
     track_new_path := os_path_join root [artist; album_segment m; track_file_name m] |},
   World (fs w)
     (log w ++ missing_keys (filename f) m
      ++ [(INFO, TrackInfo (album_segment m) (tag_text m TRACK_TITLE) artist)])).
Proof.
  intros Hm Ha artist. unfold plan_track_file.
  rewrite bind_run. unfold tags_getitem at 1. rewrite Hm, Ha.
  cbn [mret M_ret]. rewrite bind_run, (get_tag_value_run _ m) by done.
  rewrite bind_run, (get_tag_value_run _ m) by done.
  rewrite bind_run. unfold logging. cbn [mret M_ret fs log].
  unfold missing_keys. rewrite <- !(assoc_L (++)). done.
Qed.

(** Planning either raises before it logs anything, or returns and has
    only logged. *)
Lemma plan_track_file_cases tf root w :
  (∃ e, plan_track_file tf root w = (Raise e, w)) ∨
  (∃ loc lg, plan_track_file tf root w = (Return loc, World (fs w) lg)).
Proof.
  destruct tf as [f|]; [|left; by eexists].
  destruct (tags f) as [m|] eqn:Hm.
  - destruct (m !! ARTIST) as [a|] eqn:Ha.
    + right. rewrite (plan_track_file_run f m a) by done. eauto.
    + left. exists (KeyError ARTIST). unfold plan_track_file.
      rewrite bind_run. unfold tags_getitem. by rewrite Hm, Ha.
  - left. exists TypeError. unfold plan_track_file.
    rewrite bind_run. unfold tags_getitem. by rewrite Hm.
Qed.

Lemma plan_track_file_fs tf root w o w' :
  plan_track_file tf root w = (o, w') → fs w' = fs w.
Proof.
  destruct (plan_track_file_cases tf root w) as [[e He]|(loc & lg & He)];
    rewrite He; by intros [= <- <-].
Qed.

(** The three ways through lines 88-96. *)
Lemma unflatten_raise tf src root dry w e w1 :
  plan_track_file tf root w = (Raise e, w1) →
  unflatten_track_file tf src root dry w = (Raise e, w1).
Proof. intros Hp. unfold unflatten_track_file. by rewrite bind_run, Hp. Qed.

Lemma unflatten_skip tf src root dry w loc w1 :
  plan_track_file tf root w = (Return loc, w1) →
  sys_exists (track_new_path loc) (fs w1) = true →
  unflatten_track_file tf src root dry w =
  (Return false, World (fs w1) (log w1 ++ [(INFO, FileExists (track_new_path loc))])).
Proof.
  intros Hp He. unfold unflatten_track_file.
  rewrite bind_run, Hp, bind_run. unfold os_path_exists. by rewrite He.
Qed.

Lemma unflatten_dry tf src root w loc w1 :
  plan_track_file tf root w = (Return loc, w1) →
  sys_exists (track_new_path loc) (fs w1) = false →
  unflatten_track_file tf src root true w = (Return true, w1).
Proof.
  intros Hp He. unfold unflatten_track_file.
  rewrite bind_run, Hp, bind_run. unfold os_path_exists. by rewrite He.
Qed.

Lemma unflatten_move tf src root w loc w1 :
  plan_track_file tf root w = (Return loc, w1) →
  sys_exists (track_new_path loc) (fs w1) = false →
  unflatten_track_file tf src root false w =
  match (confirm_or_create_dir (artist_dir loc);;
         confirm_or_create_dir (album_dir loc);;
         os_rename src (track_new_path loc)) w1 with
  | (Return _, w') => (Return true, w')
  | (Raise e, w') => (Raise e, w')
  end.
Proof.
  intros Hp He. unfold unflatten_track_file.
  rewrite bind_run, Hp, bind_run. unfold os_path_exists. rewrite He.
  cbn [negb]. by rewrite bind_run.
Qed.

(** Lines 90-92 either fail the way a function of [os] fails or leave the
    destination in place. *)
Lemma move_chain_run ad ald src dst w :
  match (confirm_or_create_dir ad;; confirm_or_create_dir ald;; os_rename src dst) w with
  | (Return _, w') => sys_exists dst (fs w') = true
  | (Raise e, _) => ∃ oe, e = exception_of oe
  end.
Proof.
  assert (Hc : ∀ d w,
    (∃ w', confirm_or_create_dir d w = (Return true, w')) ∨
    (∃ oe w', confirm_or_create_dir d w = (Raise (exception_of oe), w'))).
  { intros d w0. unfold confirm_or_create_dir, os_path_exists.
    rewrite !bind_run. destruct (sys_exists d (fs w0)); cbn [negb]; [left; by eexists|].
    rewrite ?bind_run. unfold os_mkdir.
    destruct (sys_mkdir d (fs w0)); [right|left]; by repeat eexists. }
  rewrite bind_run.
  destruct (Hc ad w) as [[w1 ->]|(oe & w1 & ->)]; [|by eexists].
  rewrite bind_run.
  destruct (Hc ald w1) as [[w2 ->]|(oe & w2 & ->)]; [|by eexists].
  unfold os_rename.
  destruct (sys_rename src dst (fs w2)) as [oe|s'] eqn:Hr; [by eexists|].
  by eapply sys_rename_exists.
Qed.

Lemma unflatten_cases tf src root dry w :
  (∃ e, unflatten_track_file tf src root dry w = (Raise e, w)
        ∧ plan_track_file tf root w = (Raise e, w)) ∨
  (∃ loc w1, plan_track_file tf root w = (Return loc, w1) ∧ fs w1 = fs w ∧
     if sys_exists (track_new_path loc) (fs w)
     then unflatten_track_file tf src root dry w =
          (Return false, World (fs w) (log w1 ++ [(INFO, FileExists (track_new_path loc))]))
     else if dry then unflatten_track_file tf src root dry w = (Return true, w1)
     else (∃ e w', unflatten_track_file tf src root dry w = (Raise (exception_of e), w'))
          ∨ (∃ w', unflatten_track_file tf src root dry w = (Return true, w')
                   ∧ sys_exists (track_new_path loc) (fs w') = true)).
Proof.
  destruct (plan_track_file_cases tf root w) as [[e He]|(loc & lg & Hp)].
  { left. exists e. split; [by apply unflatten_raise | done]. }
  right. exists loc, (World (fs w) lg). split_and!; [done..|].
  destruct (sys_exists (track_new_path loc) (fs w)) eqn:Hex.
  - by rewrite (unflatten_skip _ _ _ _ _ _ _ Hp).
  - destruct dry; [by eapply unflatten_dry|].
    rewrite (unflatten_move _ _ _ _ _ _ Hp) by done.
    pose proof (move_chain_run (artist_dir loc) (album_dir loc) src
                  (track_new_path loc) (World (fs w) lg)) as Hc.
    match type of Hc with match ?c with _ => _ end => destruct c as [[[]|e] w'] end.
    + right. by exists w'.
    + left. destruct Hc as [oe ->]. by exists oe, w'.
Qed.

Lemma confirm_or_create_dir_run p w :
  confirm_or_create_dir p w =
  if sys_exists p (fs w) then (Return true, w)
  else match sys_mkdir p (fs w) with
       | inr s' => (Return true, World s' (log w))
       | inl e => (Raise (exception_of e), w)
       end.
Proof.
  unfold confirm_or_create_dir. rewrite bind_run. unfold os_path_exists.
  destruct (sys_exists p (fs w)); cbn [negb]; [done|].
  rewrite bind_run. unfold os_mkdir. by destruct (sys_mkdir p (fs w)).
Qed.

Lemma exception_of_cases oe :
  exception_of oe = ValueError ∨ ∃ err, exception_of oe = OSError err.
Proof. destruct oe; [right; by eexists|by left]. Qed.

(** Where lines 90-92 fail, they fail as the call of [os] that was
    reached fails in the state they end in, and they log nothing. *)
Lemma move_chain_raise ad ald src dst w e w' :
  (confirm_or_create_dir ad;; confirm_or_create_dir ald;; os_rename src dst) w
  = (Raise e, w') →
  log w' = log w ∧
  ∃ oe, e = exception_of oe ∧
    (sys_mkdir ad (fs w') = inl oe ∨ sys_mkdir ald (fs w') = inl oe
     ∨ sys_rename src dst (fs w') = inl oe).
Proof.
  assert (Hrest : ∀ w1, log w1 = log w →
    (confirm_or_create_dir ald;; os_rename src dst) w1 = (Raise e, w') →
    log w' = log w ∧
    ∃ oe, e = exception_of oe ∧
      (sys_mkdir ad (fs w') = inl oe ∨ sys_mkdir ald (fs w') = inl oe
       ∨ sys_rename src dst (fs w') = inl oe)).
  { intros w1 Hlog. rewrite bind_run, confirm_or_create_dir_run.
    assert (Hren : ∀ w2, log w2 = log w → os_rename src dst w2 = (Raise e, w') →
      log w' = log w ∧
      ∃ oe, e = exception_of oe ∧
        (sys_mkdir ad (fs w') = inl oe ∨ sys_mkdir ald (fs w') = inl oe
         ∨ sys_rename src dst (fs w') = inl oe)).
    { intros w2 Hlog2. unfold os_rename.
      destruct (sys_rename src dst (fs w2)) as [oe|s'] eqn:Hr; [|done].
      intros [= <- <-]. eauto 6. }
    destruct (sys_exists ald (fs w1)); [by apply Hren|].
    destruct (sys_mkdir ald (fs w1)) as [oe|s'] eqn:Hmk.
    - intros [= <- <-]. eauto 6.
    - by apply Hren. }
  rewrite bind_run, confirm_or_create_dir_run.
  destruct (sys_exists ad (fs w)); [by apply Hrest|].
  destruct (sys_mkdir ad (fs w)) as [oe|s'] eqn:Hmk.
  - intros [= <- <-]. eauto 6.
  - by apply Hrest.
Qed.

Lemma for_each_app {A S} (body : S → A → M FS S) l1 l2 acc w :
  for_each body (l1 ++ l2) acc w =
  match for_each body l1 acc w with
  | (Return acc', w') => for_each body l2 acc' w'
  | (Raise e, w') => (Raise e, w')
  end.
Proof.
  revert acc w. induction l1 as [|x l1 IH]; intros acc w; [done|].
  cbn [app for_each]. rewrite !bind_run.
  destruct (body acc x w) as [[acc'|e] w']; [apply IH|done].
Qed.

Lemma for_each_fs {A S} (body : S → A → M FS S) l :
  (∀ acc x w, fs (body acc x w).2 = fs w) →
  ∀ acc w, fs (for_each body l acc w).2 = fs w.
Proof.
  intros Hbody. induction l as [|x l IH]; intros acc w; [done|].
  cbn [for_each]. rewrite bind_run. specialize (Hbody acc x w).
  destruct (body acc x w) as [[acc'|e] w']; [|done].
  rewrite IH. exact Hbody.
Qed.

Lemma unflatten_audio_entry_run dry c file w :
  unflatten_audio_entry dry c file w =
  match sys_mutagen_File (os_path_join MUSIC_DIR [file]) (fs w) with
  | inl e => (Raise e, w)
  | inr track_file =>
      let w1 := World (fs w) (log w ++ [(INFO, Handling file)]) in
      match unflatten_track_file track_file (os_path_join MUSIC_DIR [file]) MUSIC_DIR dry w1 with
      | (Return was_moved, w') =>
          (Return (Counters (count c + int was_moved)%nat (jpg_count c)
                            (file_existed_count c + int (negb was_moved))%nat), w')
      | (Raise (KeyError k), w') =>
          (Return c, World (fs w') (log w' ++ [(ERROR, ErrorWith file (KeyError k))]))
      | (Raise e, w') => (Raise e, w')
      end
  end.
Proof.
  unfold unflatten_audio_entry. rewrite bind_run. unfold mutagen_File.
  destruct (sys_mutagen_File _ (fs w)) as [e|tf]; [done|].
  rewrite bind_run. unfold logging at 1. rewrite bind_run. unfold try_KeyError.
  cbn zeta.
  destruct (unflatten_track_file tf _ MUSIC_DIR dry _) as [[b|[]] w']. all: try done.
Qed.

Lemma mutagen_dialect_unflatten_run dry w :
  mutagen_dialect_unflatten dry w =
  match sys_listdir MUSIC_DIR (fs w) with
  | inl e => (Raise (exception_of e), w)
  | inr files =>
      match for_each (unflatten_entry dry) files (Counters 0 0 0)
              (World (fs w) (log w ++ [(INFO, Initiating)])) with
      | (Return c, w') =>
          (Return (),
           World (fs w') (log w' ++ [(INFO, Finished {|
             TOTAL_FILES := length files;
             MP3_FILES_MOVED := count c;
             JPG_FILES := jpg_count c;
             MP3_FILES_EXISTED := file_existed_count c |})]))
      | (Raise e, w') => (Raise e, w')
      end
  end.
Proof.
  unfold mutagen_dialect_unflatten. rewrite bind_run. unfold os_listdir.
  destruct (sys_listdir MUSIC_DIR (fs w)) as [e|files]; [done|].
  rewrite bind_run. unfold logging at 1. rewrite bind_run.
  by destruct (for_each _ files _ _) as [[c|e] w'].
Qed.

(** The paths planned for a track do not depend on the state. *)
Lemma plan_track_file_indep tf root w w' loc w1 :
  plan_track_file tf root w = (Return loc, w1) →
  ∃ lg, plan_track_file tf root w' = (Return loc, World (fs w') lg).
Proof.
  intros Hp. destruct tf as [f|]; [|done].
  destruct (tags f) as [m|] eqn:Hm; [destruct (m !! ARTIST) as [a|] eqn:Ha|].
  - rewrite (plan_track_file_run f m a) in Hp |- * by done.
    injection Hp as <- _. by eexists.
  - unfold plan_track_file in Hp. rewrite bind_run in Hp.
    unfold tags_getitem in Hp. by rewrite Hm, Ha in Hp.
  - unfold plan_track_file in Hp. rewrite bind_run in Hp.
    unfold tags_getitem in Hp. by rewrite Hm in Hp.
Qed.

(** Without artist the planning stops at its first lookup. *)
Lemma plan_track_file_missing_artist f m root w :
  tags f = Some m → m !! ARTIST = None →
  plan_track_file (Some f) root w = (Raise (KeyError ARTIST), w).
Proof.
  intros Hm Ha. unfold plan_track_file.
  rewrite bind_run. unfold tags_getitem. by rewrite Hm, Ha.
Qed.

Lemma plan_track_file_inv tf root w loc w1 :
  plan_track_file tf root w = (Return loc, w1) →
  ∃ f m a, tf = Some f ∧ tags f = Some m ∧ m !! ARTIST = Some a ∧
    loc = {|
      artist_dir := os_path_join root [sanitize_file_name_text a];
      album_dir := os_path_join (os_path_join root [sanitize_file_name_text a])
                     [album_segment m];
      track_new_path :=
        os_path_join root [sanitize_file_name_text a; album_segment m; track_file_name m] |}.
Proof.
  intros Hp. destruct tf as [f|]; [|done].
  destruct (tags f) as [m|] eqn:Hm; [destruct (m !! ARTIST) as [a|] eqn:Ha|].
  - rewrite (plan_track_file_run f m a) in Hp by done.
    injection Hp as <- _. by exists f, m, a.
  - by rewrite (plan_track_file_missing_artist f m) in Hp.
  - unfold plan_track_file in Hp. rewrite bind_run in Hp.
    unfold tags_getitem in Hp. by rewrite Hm in Hp.
Qed.

Lemma plan_track_file_raise_inv tf root w e w1 :
  plan_track_file tf root w = (Raise e, w1) →
  w1 = w ∧
  ((tf = None ∧ e = AttributeError)
   ∨ (∃ f, tf = Some f ∧ tags f = None ∧ e = TypeError)
   ∨ (∃ f m, tf = Some f ∧ tags f = Some m ∧ m !! ARTIST = None ∧ e = KeyError ARTIST)).
Proof.
  intros Hp. destruct tf as [f|].
  - destruct (tags f) as [m|] eqn:Hm; [destruct (m !! ARTIST) as [a|] eqn:Ha|].
    + by rewrite (plan_track_file_run f m a) in Hp.
    + rewrite (plan_track_file_missing_artist f m) in Hp by done.
      injection Hp as <- <-. split; [done|]. right. right. by exists f, m.
    + unfold plan_track_file in Hp. rewrite bind_run in Hp.
      unfold tags_getitem in Hp. rewrite Hm in Hp.
      injection Hp as <- <-. split; [done|]. right. left. by exists f.
  - injection Hp as <- <-. split; [done|]. by left.
Qed.

(** C1.  A target path that already exists makes [unflatten_track_file]
    return [False] with the file system as it was, whatever [dry_run] is;
    and once a call has moved a track, a second call for the same track,
    source and destination finds the target in place: it returns [False]
    and changes nothing. *)
Theorem no_overwrite_guard tf src root :
  (∀ dry w loc w1,
     plan_track_file tf root w = (Return loc, w1) →
     sys_exists (track_new_path loc) (fs w) = true →
     ∃ lg, unflatten_track_file tf src root dry w = (Return false, World (fs w) lg)) ∧
  (∀ dry' w w',
     unflatten_track_file tf src root false w = (Return true, w') →
     ∃ lg, unflatten_track_file tf src root dry' w' = (Return false, World (fs w') lg)).
Proof.
  assert (Hskip : ∀ dry w loc w1,
     plan_track_file tf root w = (Return loc, w1) →
     sys_exists (track_new_path loc) (fs w) = true →
     ∃ lg, unflatten_track_file tf src root dry w = (Return false, World (fs w) lg)).
  { intros dry w loc w1 Hp Hex.
    pose proof (plan_track_file_fs _ _ _ _ _ Hp) as Hfs.
    rewrite (unflatten_skip _ _ _ _ _ _ _ Hp) by (by rewrite Hfs).
    rewrite Hfs. by eexists. }
  split; [done|]. intros dry' w w' Hrun.
  destruct (unflatten_cases tf src root false w)
    as [(e & He & _)|(loc & w1 & Hp & Hfs & Hc)]; [congruence|].
  destruct (sys_exists (track_new_path loc) (fs w)); [congruence|].
  destruct Hc as [(e & w2 & Hc)|(w2 & Hc & Hex)]; [congruence|].
  assert (w2 = w') as -> by congruence.
  destruct (plan_track_file_indep _ _ _ w' _ _ Hp) as [lg Hp'].
  by eapply Hskip.
Qed.

(** C2.  A track whose tag mapping has no artist key makes
    [unflatten_track_file] raise the [KeyError] of that key, with no
    default put in its place, and leaves the file system (and the log)
    as they were. *)
Theorem missing_artist_fails f m src root dry w :
  tags f = Some m → m !! ARTIST = None →
  unflatten_track_file (Some f) src root dry w = (Raise (KeyError ARTIST), w).
Proof.
  intros Hm Ha. unfold unflatten_track_file.
  rewrite bind_run. unfold plan_track_file.
  rewrite bind_run. unfold tags_getitem. by rewrite Hm, Ha.
Qed.

(** A planned move whose target is not there returns [True], or fails as
    the call of [os] that was reached fails in the state the move ends in. *)
Lemma unflatten_move_outcomes tf src root w loc w1 :
  plan_track_file tf root w = (Return loc, w1) →
  sys_exists (track_new_path loc) (fs w1) = false →
  (∃ w', unflatten_track_file tf src root false w = (Return true, w')) ∨
  (∃ oe w', unflatten_track_file tf src root false w = (Raise (exception_of oe), w') ∧
     log w' = log w1 ∧
     (sys_mkdir (artist_dir loc) (fs w') = inl oe
      ∨ sys_mkdir (album_dir loc) (fs w') = inl oe
      ∨ sys_rename src (track_new_path loc) (fs w') = inl oe)).
Proof.
  intros Hp Hex. rewrite (unflatten_move _ _ _ _ _ _ Hp Hex).
  destruct ((confirm_or_create_dir (artist_dir loc);;
             confirm_or_create_dir (album_dir loc);;
             os_rename src (track_new_path loc)) w1) as [[[]|e] w'] eqn:Hchain.
  - left. by exists w'.
  - right. apply move_chain_raise in Hchain as (Hlog & oe & -> & Hcall).
    by exists oe, w'.
Qed.

(** C6, as the code has it.  With [dry_run=True] the file system is left
    as it was.  A boolean returned by the call with [dry_run=False] is the
    one the dry run returns from the same state; an exception of the dry
    run (the planning failed) and a [False] of the dry run (the target is
    in place) are the outcome of the other call as well, state and log
    included.  Where the dry run returns [True] the other call returns
    [True] too, or it returns no boolean at all: it raises the failure of
    [os.mkdir] on the artist or the album directory or of [os.rename]. *)
Theorem dry_run_transparent tf src root w :
  fs (unflatten_track_file tf src root true w).2 = fs w ∧
  (∀ b w', unflatten_track_file tf src root false w = (Return b, w') →
     (unflatten_track_file tf src root true w).1 = Return b) ∧
  (∀ e, (unflatten_track_file tf src root true w).1 = Raise e →
     unflatten_track_file tf src root false w = unflatten_track_file tf src root true w) ∧
  ((unflatten_track_file tf src root true w).1 = Return false →
     unflatten_track_file tf src root false w = unflatten_track_file tf src root true w) ∧
  ((unflatten_track_file tf src root true w).1 = Return true →
     (∃ w', unflatten_track_file tf src root false w = (Return true, w')) ∨
     (∃ oe w' loc,
        unflatten_track_file tf src root false w = (Raise (exception_of oe), w') ∧
        (plan_track_file tf root w).1 = Return loc ∧
        (sys_mkdir (artist_dir loc) (fs w') = inl oe
         ∨ sys_mkdir (album_dir loc) (fs w') = inl oe
         ∨ sys_rename src (track_new_path loc) (fs w') = inl oe))).
Proof.
  destruct (plan_track_file tf root w) as [[loc|e] w1] eqn:Hp.
  - pose proof (plan_track_file_fs _ _ _ _ _ Hp) as Hfs.
    destruct (sys_exists (track_new_path loc) (fs w1)) eqn:Hex.
    + rewrite !(unflatten_skip _ _ _ _ _ _ _ Hp Hex). cbn [fst snd fs].
      split_and!; [done| |done..]. by intros b w' [= <- _].
    + rewrite (unflatten_dry _ _ _ _ _ _ Hp Hex). cbn [fst snd].
      destruct (unflatten_move_outcomes tf src root w loc w1 Hp Hex)
        as [[w' Hreal]|(oe & w' & Hreal & _ & Hcall)]; rewrite Hreal.
      * split_and!; [done| |done..|]; [by intros b w2 [= <- _]|]. intros _. left. by exists w'.
      * split_and!; [done..|]. intros _. right. by exists oe, w', loc.
  - rewrite !(unflatten_raise _ _ _ _ _ _ _ Hp). cbn [fst snd].
    by destruct (plan_track_file_raise_inv _ _ _ _ _ Hp) as [-> _].
Qed.

Lemma replace_from_subseteq old k s c :
  c ∈ replace_from old [] k s → c ∈ s.
Proof.
  revert k. induction s as [|x s IH]; intros k; [done|].
  cbn [replace_from]. destruct k as [|k].
  - destruct (startswith (x :: s) old).
    + rewrite app_nil_l. intros ?%IH. by right.
    + rewrite !elem_of_cons. intros [->|?%IH]; auto.
  - intros ?%IH. by right.
Qed.

Lemma album_segment_no_sep m : SLASH ∉ album_segment m.
Proof.
  unfold album_segment. intros Hin%replace_from_subseteq. revert Hin.
  case_bool_decide as He.
  - compute_done.
  - unfold tag_text in *. destruct (m !! ALBUM_TITLE) as [al|]; [|done].
    simpl. intros Hin%sanitize_clean. apply Hin. unfold reserved. set_solver.
Qed.

Lemma track_file_name_is_name m : track_file_name m ≠ [] ∧ SLASH ∉ track_file_name m.
Proof.
  unfold track_file_name. split; [by destruct (tag_text m TRACK_TITLE)|].
  rewrite not_elem_of_app. split.
  - unfold tag_text. destruct (m !! TRACK_TITLE) as [t|]; [|by apply not_elem_of_nil].
    simpl. intros Hin%sanitize_clean. apply Hin. unfold reserved. set_solver.
  - compute_done.
Qed.

Lemma sanitize_no_sep x : SLASH ∉ sanitize_file_name_text x.
Proof.
  intros Hin%sanitize_clean. apply Hin. unfold reserved. apply list_elem_of_here.
Qed.

(** C3.  For a track that has its artist, album and title tags, the path
    planned is the join of the destination root, the sanitized artist, the
    album segment and the sanitized title followed by [.mp3]; when artist
    and album segment are not empty this is the root, a separator unless
    the root is empty or ends with one, and the three names with a
    separator between them.  For the tags of the example the path is the
    root followed by [Daft Punk/Discovery/One More Time.mp3]. *)
Theorem path_composition root :
  (∀ f m a al t w,
     tags f = Some m →
     m !! ARTIST = Some a → m !! ALBUM_TITLE = Some al → m !! TRACK_TITLE = Some t →
     let artist := sanitize_file_name_text a in
     let title := sanitize_file_name_text t in
     let target := os_path_join root [artist; album_segment m; title ++ py ".mp3"] in
     (∃ lg, plan_track_file (Some f) root w =
        (Return {| artist_dir := os_path_join root [artist];
                   album_dir := os_path_join (os_path_join root [artist]) [album_segment m];
                   track_new_path := target |},
         World (fs w) lg)) ∧
     (artist ≠ [] → album_segment m ≠ [] →
        target = root ++ sep_after root ++ artist ++ [SLASH] ++ album_segment m
                      ++ [SLASH] ++ title ++ py ".mp3")) ∧
  (∀ f w,
     tags f = Some daft_punk →
     ∃ loc lg, plan_track_file (Some f) root w = (Return loc, World (fs w) lg) ∧
       track_new_path loc
       = root ++ sep_after root ++ py "Daft Punk/Discovery/One More Time.mp3").
Proof.
  assert (Hgen : ∀ f m a al t w,
     tags f = Some m →
     m !! ARTIST = Some a → m !! ALBUM_TITLE = Some al → m !! TRACK_TITLE = Some t →
     let artist := sanitize_file_name_text a in
     let title := sanitize_file_name_text t in
     let target := os_path_join root [artist; album_segment m; title ++ py ".mp3"] in
     (∃ lg, plan_track_file (Some f) root w =
        (Return {| artist_dir := os_path_join root [artist];
                   album_dir := os_path_join (os_path_join root [artist]) [album_segment m];
                   track_new_path := target |},
         World (fs w) lg)) ∧
     (artist ≠ [] → album_segment m ≠ [] →
        target = root ++ sep_after root ++ artist ++ [SLASH] ++ album_segment m
                      ++ [SLASH] ++ title ++ py ".mp3")).
  { intros f m a al t w Hm Ha Hal Ht artist title target.
    assert (Hname : track_file_name m = title ++ py ".mp3").
    { unfold track_file_name, tag_text. by rewrite Ht. }
    split.
    - rewrite (plan_track_file_run f m a) by done. rewrite Hname. by eexists.
    - intros Hartist Halbum. unfold target. rewrite os_path_join_names; [done| |done].
      repeat apply Forall_cons_2; [| |rewrite <- Hname|done].
      + split; [done|apply sanitize_no_sep].
      + split; [done|apply album_segment_no_sep].
      + apply track_file_name_is_name. }
  split; [done|]. intros f w Hf.
  destruct (Hgen f daft_punk (py "Daft Punk") (py "Discovery") (py "One More Time") w)
    as [[lg Hplan] Htarget]; [done|by vm_compute..|].
  eexists _, lg. split; [exact Hplan|]. cbn [track_new_path].
  rewrite Htarget by (by vm_compute). do 2 f_equal.
Qed.

(** C7.  When the album tag is absent, or sanitizes to the empty text, the
    album segment is the literal [Unknown Album]: it is the album title
    reported and the name of the album directory in the paths planned. *)
Theorem album_default f m a root w :
  tags f = Some m → m !! ARTIST = Some a →
  (m !! ALBUM_TITLE = None
   ∨ ∃ al, m !! ALBUM_TITLE = Some al ∧ sanitize_file_name_text al = []) →
  let artist := sanitize_file_name_text a in
  album_segment m = py "Unknown Album" ∧
  ∃ lg, plan_track_file (Some f) root w =
    (Return {|
       artist_dir := os_path_join root [artist];
       album_dir := os_path_join (os_path_join root [artist]) [py "Unknown Album"];
       track_new_path :=
         os_path_join root [artist; py "Unknown Album"; track_file_name m] |},
     World (fs w) lg)
    ∧ (INFO, TrackInfo (py "Unknown Album") (tag_text m TRACK_TITLE) artist) ∈ lg.
Proof.
  intros Hm Ha Halbum artist.
  assert (Hseg : album_segment m = py "Unknown Album").
  { unfold album_segment, tag_text.
    destruct Halbum as [-> | (al & -> & Hal)]; simpl; [|rewrite Hal]; by vm_compute. }
  split; [done|]. rewrite (plan_track_file_run f m a), Hseg by done.
  eexists. split; [done|]. rewrite !elem_of_app, list_elem_of_singleton. auto.
Qed.

(** C9.  The extension is taken out after the default is put in: an album
    tag that sanitizes to one or more copies of [.mp3] and nothing else
    gives the empty album segment, not [Unknown Album], and the track is
    planned directly under the artist directory. *)
Theorem album_only_extension f m a al n root w :
  tags f = Some m → m !! ARTIST = Some a → m !! ALBUM_TITLE = Some al →
  sanitize_file_name_text al = mjoin (replicate (S n) (py ".mp3")) →
  let artist := sanitize_file_name_text a in
  album_segment m = [] ∧
  ∃ lg, plan_track_file (Some f) root w =
    (Return {|
       artist_dir := os_path_join root [artist];
       album_dir := os_path_join (os_path_join root [artist]) [[]];
       track_new_path := os_path_join root [artist; track_file_name m] |},
     World (fs w) lg)
    ∧ (INFO, TrackInfo [] (tag_text m TRACK_TITLE) artist) ∈ lg.
Proof.
  intros Hm Ha Hal Hcopies artist.
  assert (Hseg : album_segment m = []).
  { unfold album_segment, tag_text. rewrite Hal. cbn [from_option].
    rewrite Hcopies, bool_decide_eq_false_2 by done. by apply replace_copies. }
  split; [done|]. rewrite (plan_track_file_run f m a), Hseg by done.
  eexists. split.
  - do 2 f_equal. unfold os_path_join. cbn [foldl]. by rewrite join_step_empty.
  - rewrite !elem_of_app, list_elem_of_singleton. auto.
Qed.

(** An audio entry whose track has no artist is reported as an error and
    the loop goes on with the counters as they were. *)
Lemma unflatten_audio_entry_missing_artist dry c file f m w :
  sys_mutagen_File (os_path_join MUSIC_DIR [file]) (fs w) = inr (Some f) →
  tags f = Some m → m !! ARTIST = None →
  unflatten_audio_entry dry c file w =
  (Return c,
   World (fs w)
     (log w ++ [(INFO, Handling file); (ERROR, ErrorWith file (KeyError ARTIST))])).
Proof.
  intros Hfile Hm Ha. unfold unflatten_audio_entry.
  rewrite bind_run. unfold mutagen_File. rewrite Hfile.
  rewrite bind_run. unfold logging at 1. rewrite bind_run. unfold try_KeyError.
  erewrite unflatten_raise by (by apply (plan_track_file_missing_artist f m)).
  unfold logging.
  rewrite bind_run. cbn [fs log mret M_ret]. by rewrite <- (assoc_L (++)).
Qed.

Lemma endswith_app p q : endswith (p ++ q) q = true.
Proof. apply endswith_spec. by exists p. Qed.


End Runs.

(** ** The scenario of the batch runner, and instances of the theorems *)

Import Scenario.

(** The guard at work: the first track is skipped when its destination is
    taken, and skipped by a second call after a first one has moved it. *)
Lemma no_overwrite_guard_witness :
  (∃ lg, unflatten_track_file track_one (in_music one) MUSIC_DIR false organised
         = (Return false, World (fs organised) lg)) ∧
  (∃ lg,
     unflatten_track_file track_one (in_music one) MUSIC_DIR true
       (unflatten_track_file track_one (in_music one) MUSIC_DIR false flat).2
     = (Return false,
        World (fs (unflatten_track_file track_one (in_music one) MUSIC_DIR false flat).2) lg)).
Proof.
  split.
  - refine (proj1 (no_overwrite_guard track_one (in_music one) MUSIC_DIR)
              false organised
              (returned (plan_track_file track_one MUSIC_DIR organised).1 (Locations [] [] []))
              (plan_track_file track_one MUSIC_DIR organised).2 _ _); compute_done.
  - refine (proj2 (no_overwrite_guard track_one (in_music one) MUSIC_DIR) true flat _ _).
    compute_done.
Defined.

(** The third track of the directory has no artist. *)
Lemma missing_artist_fails_witness :
  unflatten_track_file track_three (in_music three) MUSIC_DIR false flat
  = (Raise (KeyError ARTIST), flat).
Proof.
  refine (missing_artist_fails {| filename := in_music three; tags := Some tags_three |}
            tags_three (in_music three) MUSIC_DIR false flat _ _).
  - reflexivity.
  - compute_done.
Defined.

(** The dry run of the first track returns what the move returns, and the
    exception of the dry run of the third track is that of the other call. *)
Lemma dry_run_transparent_witness :
  (unflatten_track_file track_one (in_music one) MUSIC_DIR true flat).1 = Return true ∧
  unflatten_track_file track_three (in_music three) MUSIC_DIR false flat
  = unflatten_track_file track_three (in_music three) MUSIC_DIR true flat.
Proof.
  split.
  - refine (proj1 (proj2 (dry_run_transparent track_one (in_music one) MUSIC_DIR flat))
              true (unflatten_track_file track_one (in_music one) MUSIC_DIR false flat).2 _).
    compute_done.
  - refine (proj1 (proj2 (proj2
              (dry_run_transparent track_three (in_music three) MUSIC_DIR flat)))
              (KeyError ARTIST) _).
    compute_done.
Defined.

(** The example of the path planner under the root [R]. *)
Lemma path_composition_witness :
  ∃ loc lg,
    plan_track_file track_one (py "R") flat = (Return loc, World (fs flat) lg) ∧
    track_new_path loc
    = py "R" ++ sep_after (py "R") ++ py "Daft Punk/Discovery/One More Time.mp3".
Proof.
  refine (proj2 (path_composition (py "R"))
            {| filename := in_music one; tags := Some tags_one |} flat _).
  reflexivity.
Defined.

Example daft_punk_path :
  py "R" ++ sep_after (py "R") ++ py "Daft Punk/Discovery/One More Time.mp3"
  = py "R/Daft Punk/Discovery/One More Time.mp3".
Proof. reflexivity. Qed.

(** A track with no album tag. *)
Lemma album_default_witness :
  album_segment tags_no_album = py "Unknown Album" ∧
  ∃ lg, plan_track_file (Some {| filename := py "tnt.mp3"; tags := Some tags_no_album |})
          MUSIC_DIR flat =
    (Return {|
       artist_dir := os_path_join MUSIC_DIR [sanitize_file_name_text (py "AC/DC")];
       album_dir :=
         os_path_join (os_path_join MUSIC_DIR [sanitize_file_name_text (py "AC/DC")])
           [py "Unknown Album"];
       track_new_path :=
         os_path_join MUSIC_DIR
           [sanitize_file_name_text (py "AC/DC"); py "Unknown Album";
            track_file_name tags_no_album] |},
     World (fs flat) lg)
    ∧ (INFO, TrackInfo (py "Unknown Album") (tag_text tags_no_album TRACK_TITLE)
               (sanitize_file_name_text (py "AC/DC"))) ∈ lg.
Proof.
  refine (album_default {| filename := py "tnt.mp3"; tags := Some tags_no_album |}
            tags_no_album (py "AC/DC") MUSIC_DIR flat _ _ (or_introl _)).
  - reflexivity.
  - compute_done.
  - compute_done.
Defined.

(** A track whose album tag is the extension alone. *)
Lemma album_only_extension_witness :
  album_segment tags_extension_album = [] ∧
  ∃ lg, plan_track_file (Some {| filename := py "p.mp3"; tags := Some tags_extension_album |})
          MUSIC_DIR flat =
    (Return {|
       artist_dir := os_path_join MUSIC_DIR [sanitize_file_name_text (py "Moby")];
       album_dir :=
         os_path_join (os_path_join MUSIC_DIR [sanitize_file_name_text (py "Moby")]) [[]];
       track_new_path :=
         os_path_join MUSIC_DIR
           [sanitize_file_name_text (py "Moby"); track_file_name tags_extension_album] |},
     World (fs flat) lg)
    ∧ (INFO, TrackInfo [] (tag_text tags_extension_album TRACK_TITLE)
               (sanitize_file_name_text (py "Moby"))) ∈ lg.
Proof.
  refine (album_only_extension {| filename := py "p.mp3"; tags := Some tags_extension_album |}
            tags_extension_album (py "Moby") (py ".mp3") 0 MUSIC_DIR flat _ _ _ _).
  - reflexivity.
  - compute_done.
  - compute_done.
  - compute_done.
Defined.

(** C6 as stated fails where the move itself fails.  The source below is
    not in the directory: the call with [dry_run=False] makes the two
    directories and then raises the [FileNotFoundError] of [os.rename],
    so it returns no boolean, while the dry run of the same call from the
    same state returns [True]. *)
Lemma dry_run_not_transparent :
  (unflatten_track_file track_one (in_music (py "gone.mp3")) MUSIC_DIR true flat).1
  = Return true ∧
  (unflatten_track_file track_one (in_music (py "gone.mp3")) MUSIC_DIR false flat).1
  = Raise (OSError FileNotFoundError) ∧
  RefFS.isdir (in_music (py "Daft Punk/Discovery"))
    (fs (unflatten_track_file track_one (in_music (py "gone.mp3")) MUSIC_DIR false flat).2)
  = true.
Proof. split_and!; compute_done. Qed.

(** * Further properties

    What the other functions of [music.py] do, and more on the ones above:
    the sanitizer, the optional lookup, the directories, the exceptions and
    collisions of the executor, the accounting of the batch, the repair of
    extensions and the count of extensions. *)

(** ** The sanitizer *)

Example rpartition_samples :
  rpartition (py "a.b.c") (py ".") = (py "a.b", py ".", py "c") ∧
  rpartition (py "abc") (py ".") = ([], [], py "abc") ∧
  rpartition (py "abc.") (py ".") = (py "abc", py ".", []) ∧
  rpartition (py ".abc") (py ".") = ([], py ".", py "abc") ∧
  partition (py "a.b.c") (py ".") = (py "a", py ".", py "b.c") ∧
  partition (py "abc") (py ".") = (py "abc", [], []).
Proof. done. Qed.

Section MoreText.
Implicit Types (x s p : text) (c : N).

(** *** Fixed points and size of the sanitizer *)

Lemma blank_lstrip s : blank s → lstrip s = [].
Proof. induction 1 as [|c s Hc _ IH]; [done|]. simpl. by rewrite Hc. Qed.

Lemma blank_strip s : blank s → strip s = [].
Proof. intros Hs. unfold strip. by rewrite blank_lstrip. Qed.

Lemma strip_nil_blank s : strip s = [] → blank s.
Proof.
  intros Hs. destruct (strip_split s) as (l & r & Heq & Hl & Hr).
  rewrite Hs in Heq. rewrite Heq. unfold blank in *. by apply Forall_app.
Qed.

Lemma lstrip_length s : (length (lstrip s) ≤ length s)%nat.
Proof.
  induction s as [|c s IH]; [done|]. simpl. destruct (isspace c); simpl; lia.
Qed.

Lemma strip_length s : (length (strip s) ≤ length s)%nat.
Proof.
  unfold strip, rstrip. rewrite length_reverse.
  etrans; [apply lstrip_length|]. rewrite length_reverse. apply lstrip_length.
Qed.

Lemma bind_sanitize_char_length s : (length (s ≫= sanitize_char) ≤ length s)%nat.
Proof.
  induction s as [|c s IH]; [done|].
  assert (length (sanitize_char c) ≤ 1)%nat.
  { unfold sanitize_char. repeat case_decide; simpl; lia. }
  rewrite bind_cons, length_app. cbn [length]. lia.
Qed.

(** X1.  The sanitizer leaves a text as it is exactly when the text has
    none of the four reserved characters and no white space at either
    end. *)
Theorem sanitize_fixed_point x :
  sanitize_file_name_text x = x ↔
  (∀ c, c ∈ reserved → c ∉ x) ∧ clean_start x = true ∧ clean_end x = true.
Proof.
  split.
  - intros Hx.
    assert (Hres : ∀ c, c ∈ reserved → c ∉ x).
    { intros c Hc Hin. rewrite <- Hx in Hin. by apply sanitize_clean in Hin. }
    split; [done|]. apply strip_fixed.
    rewrite sanitize_unfold in Hx.
    rewrite bind_sanitize_char_id in Hx; [done|].
    apply Forall_forall. intros c Hc%strip_subseteq Hr. by eapply Hres.
  - intros (Hres & Hs & He). rewrite sanitize_unfold, strip_id by done.
    apply bind_sanitize_char_id, Forall_forall. intros c Hc Hr. by eapply Hres.
Qed.

(** X2.  The sanitizer never makes a text longer; a text of white space
    only, the empty text included, becomes the empty text; and the output
    is empty exactly when the stripped input holds nothing but question
    marks and double quotes. *)
Theorem sanitize_shrinks x :
  (length (sanitize_file_name_text x) ≤ length x)%nat ∧
  (blank x → sanitize_file_name_text x = []) ∧
  (sanitize_file_name_text x = [] ↔ ∀ c, c ∈ strip x → c = QUESTION ∨ c = DQUOTE).
Proof.
  split_and!.
  - rewrite sanitize_unfold. etrans; [apply bind_sanitize_char_length|apply strip_length].
  - intros Hx. by rewrite sanitize_unfold, blank_strip.
  - rewrite sanitize_unfold. split.
    + intros Hnil c Hc.
      assert (Hsc : sanitize_char c = []).
      { apply list_elem_of_split in Hc as (l1 & l2 & Heq). rewrite Heq in Hnil.
        rewrite bind_app, bind_cons in Hnil.
        by apply app_eq_nil in Hnil as [_ [? _]%app_eq_nil]. }
      unfold sanitize_char in Hsc. repeat case_decide; try done; auto.
    + intros Hall. induction (strip x) as [|c s IH]; [done|].
      rewrite bind_cons, IH by (intros; apply Hall; by right).
      destruct (Hall c) as [-> | ->]; [by left|done..].
Qed.

End MoreText.

(** ** Partitions and counts *)

Section Extensions.
Implicit Types (s p e : text) (c : N) (acc : gmap text nat).

Lemma partition_not_found s c : c ∉ s → partition s [c] = (s, [], []).
Proof.
  induction s as [|x s IH]; [done|].
  rewrite not_elem_of_cons. intros [Hx Hs]. cbn [partition startswith].
  rewrite (proj2 (N.eqb_neq x c)) by congruence. cbn [andb]. by rewrite IH.
Qed.

Lemma partition_found a b c : c ∉ a → partition (a ++ c :: b) [c] = (a, [c], b).
Proof.
  induction a as [|x a IH].
  - intros _. cbn. by rewrite N.eqb_refl.
  - rewrite not_elem_of_cons. intros [Hx Ha].
    change ((x :: a) ++ c :: b) with (x :: (a ++ c :: b)).
    cbn [partition startswith].
    rewrite (proj2 (N.eqb_neq x c)) by congruence. cbn [andb]. by rewrite IH.
Qed.

Lemma rpartition_not_found s c : c ∉ s → rpartition s [c] = ([], [], s).
Proof.
  intros Hs. unfold rpartition. change (reverse [c]) with [c].
  by rewrite partition_not_found by (by rewrite elem_of_reverse).
Qed.

Lemma rpartition_found p e c : c ∉ e → rpartition (p ++ c :: e) [c] = (p, [c], e).
Proof.
  intros He. unfold rpartition. change (reverse [c]) with [c].
  rewrite reverse_app, reverse_cons, <- (assoc_L (++)). cbn [app].
  rewrite partition_found by (by rewrite elem_of_reverse).
  by rewrite !reverse_involutive.
Qed.

Lemma count_extension_lookup acc name e :
  count_extension acc name !! e =
  if decide (extension name = e) then Some (S (default 0%nat (acc !! e))) else acc !! e.
Proof.
  unfold count_extension. fold (extension name). rewrite lookup_insert.
  case_decide; [subst; f_equal; lia|done].
Qed.

Lemma total_insert acc e n :
  (total (<[e := n]> acc) + default 0 (acc !! e) = total acc + n)%nat.
Proof.
  assert (Hfresh : ∀ (m : gmap text nat) k, m !! e = None →
    total (<[e := k]> m) = (k + total m)%nat).
  { intros m k Hm. unfold total. rewrite map_fold_insert_L; [done| |done].
    intros; lia. }
  destruct (acc !! e) as [k|] eqn:He; simpl.
  - rewrite <- (insert_delete_id acc e k He) at 2.
    rewrite <- (insert_delete_eq acc).
    rewrite !Hfresh by apply lookup_delete_eq. lia.
  - rewrite Hfresh by done. lia.
Qed.

Lemma foldl_count_extension_lookup names acc e :
  default 0%nat (foldl count_extension acc names !! e)
  = (default 0 (acc !! e) + length (filter (λ name, extension name = e) names))%nat.
Proof.
  revert acc. induction names as [|name names IH]; intros acc; [simpl; lia|].
  cbn [foldl]. rewrite IH, count_extension_lookup, filter_cons.
  case_decide; simpl; lia.
Qed.

Lemma foldl_count_extension_positive names acc e n :
  (∀ e n, acc !! e = Some n → 0 < n)%nat →
  foldl count_extension acc names !! e = Some n → (0 < n)%nat.
Proof.
  revert acc. induction names as [|name names IH]; intros acc Hacc; [by apply Hacc|].
  cbn [foldl]. apply IH. intros e' n'. rewrite count_extension_lookup.
  case_decide; [intros [= <-]; lia|apply Hacc].
Qed.

Lemma foldl_count_extension_total names acc :
  total (foldl count_extension acc names) = (total acc + length names)%nat.
Proof.
  revert acc. induction names as [|name names IH]; intros acc; [simpl; lia|].
  cbn [foldl length]. rewrite IH. unfold count_extension.
  pose proof (total_insert acc (rpartition name (py ".")).2
                (default 0%nat (acc !! (rpartition name (py ".")).2) + 1)). lia.
Qed.

End Extensions.

(** ** The executor *)

Section MoreRuns.
Context {FS : Type} `{!Platform FS}.
Implicit Types (w : world FS) (m : gmap text text) (f : FileType).

(** *** The optional lookup *)

Lemma get_tag_value_table tf key w :
  get_tag_value tf key w =
  match tf with
  | None => (Raise AttributeError, w)
  | Some f =>
      match tags f with
      | None => (Raise TypeError, w)
      | Some m =>
          (Return (tag_text m key),
           World (fs w)
             (log w ++ if m !! key is None
                       then [(DEBUG, MissingKey (filename f) key)] else []))
      end
  end.
Proof.
  destruct tf as [f|]; [|done]. destruct (tags f) as [m|] eqn:Hm.
  - by apply get_tag_value_run.
  - unfold get_tag_value. rewrite bind_run. unfold try_KeyError, tags_getitem.
    by rewrite Hm.
Qed.

Lemma tag_text_clean m key c : c ∈ reserved → c ∉ tag_text m key.
Proof.
  intros Hc. unfold tag_text. destruct (m !! key) as [t|]; simpl.
  - intros Hin. by apply sanitize_clean in Hin.
  - apply not_elem_of_nil.
Qed.

(** X3.  The optional lookup never fails for a key that is not there and never
    touches the file system: with a tag mapping it returns the sanitized
    value, or the empty text after one debug record; what it lets through
    is the error of a track that has no tag mapping. *)
Theorem get_tag_value_tolerant tf key w :
  fs (get_tag_value tf key w).2 = fs w ∧
  (∀ k, (get_tag_value tf key w).1 ≠ Raise (KeyError k)) ∧
  (∀ f m, tf = Some f → tags f = Some m →
     (get_tag_value tf key w).1 = Return (tag_text m key) ∧
     (m !! key = None →
        tag_text m key = [] ∧
        log (get_tag_value tf key w).2 = log w ++ [(DEBUG, MissingKey (filename f) key)]) ∧
     (is_Some (m !! key) → log (get_tag_value tf key w).2 = log w)) ∧
  (∀ f, tf = Some f → tags f = None → get_tag_value tf key w = (Raise TypeError, w)) ∧
  (∀ t c, (get_tag_value tf key w).1 = Return t → c ∈ reserved → c ∉ t).
Proof.
  rewrite get_tag_value_table.
  destruct tf as [f|]; [destruct (tags f) as [m|] eqn:Hm|]; split_and!; try done.
  - intros f' m' [= <-] Hm'. rewrite Hm in Hm'. injection Hm' as <-.
    split_and!; [done| |].
    + intros Hk. unfold tag_text. by rewrite Hk.
    + intros [t Ht]. rewrite Ht. cbn. by rewrite app_nil_r.
  - intros f' [= <-] Hn. congruence.
  - intros t c [= <-]. apply tag_text_clean.
  - intros f' m' [= <-] Hm'. congruence.
Qed.

(** *** Making sure of a directory *)

(** X4.  [confirm_or_create_dir] leaves an existing path alone, never returns
    [False] and never logs; on a path that is not there it returns [True]
    with the state [os.mkdir] leaves, or fails as [os.mkdir] fails there
    (an [OSError], or the [ValueError] of a path that cannot be handed to
    the system), nothing changed. *)
Theorem confirm_or_create_dir_outcomes p w :
  (sys_exists p (fs w) = true → confirm_or_create_dir p w = (Return true, w)) ∧
  (∀ b w', confirm_or_create_dir p w = (Return b, w') →
     b = true ∧ log w' = log w ∧
     (sys_exists p (fs w) = false → sys_mkdir p (fs w) = inr (fs w'))) ∧
  (∀ e w', confirm_or_create_dir p w = (Raise e, w') →
     w' = w ∧ sys_exists p (fs w) = false ∧
     (∃ oe, sys_mkdir p (fs w) = inl oe ∧ e = exception_of oe) ∧
     (e = ValueError ∨ ∃ err, e = OSError err)).
Proof.
  rewrite confirm_or_create_dir_run.
  destruct (sys_exists p (fs w)) eqn:Hex.
  - split_and!; [done| |done]. by intros b w' [= <- <-].
  - destruct (sys_mkdir p (fs w)) as [oe|s'] eqn:Hmk.
    + split_and!; [done..|]. intros e w' [= <- <-].
      split_and!; [done..|by exists oe|apply exception_of_cases].
    + split_and!; [done| |done]. by intros b w' [= <- <-].
Qed.

(** X5.  Where a directory made is a directory that exists, making sure twice
    is making sure once. *)
Theorem confirm_or_create_dir_idempotent p w :
  (∀ s s', sys_mkdir p s = inr s' → sys_exists p s' = true) →
  (confirm_or_create_dir p;; confirm_or_create_dir p) w = confirm_or_create_dir p w.
Proof.
  intros Hmk. rewrite bind_run, (confirm_or_create_dir_run p w).
  destruct (sys_exists p (fs w)) eqn:Hex.
  - by rewrite confirm_or_create_dir_run, Hex.
  - destruct (sys_mkdir p (fs w)) as [oe|s'] eqn:Hs; [done|].
    rewrite confirm_or_create_dir_run. cbn [fs]. by rewrite (Hmk _ _ Hs).
Qed.

(** *** What the executor can raise *)

(** X6.  An exception of [unflatten_track_file] is either raised before
    anything is done (no track object, no tag mapping, no artist: state and
    log are as they were; a missing album or title never raises), or the
    run is not dry, the track was planned at a path that is not there, and
    the exception is the failure of [os.mkdir] on the artist or the album
    directory or of [os.rename], in the state the call ends in: an
    [OSError], or the [ValueError] of a path that cannot be handed to the
    system. *)
Theorem unflatten_track_file_raises tf src root dry w e w' :
  unflatten_track_file tf src root dry w = (Raise e, w') →
  (w' = w ∧
   ((tf = None ∧ e = AttributeError)
    ∨ (∃ f, tf = Some f ∧ tags f = None ∧ e = TypeError)
    ∨ (∃ f m, tf = Some f ∧ tags f = Some m ∧ m !! ARTIST = None ∧ e = KeyError ARTIST)))
  ∨ (dry = false ∧
     ∃ loc w1 oe,
       plan_track_file tf root w = (Return loc, w1) ∧
       sys_exists (track_new_path loc) (fs w) = false ∧
       log w' = log w1 ∧
       e = exception_of oe ∧
       (sys_mkdir (artist_dir loc) (fs w') = inl oe
        ∨ sys_mkdir (album_dir loc) (fs w') = inl oe
        ∨ sys_rename src (track_new_path loc) (fs w') = inl oe) ∧
       (e = ValueError ∨ ∃ err, e = OSError err)).
Proof.
  intros Hrun.
  destruct (plan_track_file tf root w) as [[loc|e'] w1] eqn:Hp.
  - right. pose proof (plan_track_file_fs _ _ _ _ _ Hp) as Hfs.
    destruct (sys_exists (track_new_path loc) (fs w)) eqn:Hex.
    { rewrite (unflatten_skip _ _ _ _ _ _ _ Hp) in Hrun by (by rewrite Hfs). done. }
    rewrite <- Hfs in Hex. destruct dry.
    { by rewrite (unflatten_dry _ _ _ _ _ _ Hp Hex) in Hrun. }
    rewrite (unflatten_move _ _ _ _ _ _ Hp Hex) in Hrun.
    destruct ((confirm_or_create_dir (artist_dir loc);;
               confirm_or_create_dir (album_dir loc);;
               os_rename src (track_new_path loc)) w1) as [[[]|e1] w2] eqn:Hchain; [done|].
    injection Hrun as <- <-.
    apply move_chain_raise in Hchain as (Hlog & oe & -> & Hcall).
    split; [done|]. exists loc, w1, oe.
    split_and!; [done|by rewrite <- Hfs|done..|apply exception_of_cases].
  - left. rewrite (unflatten_raise _ _ _ _ _ _ _ Hp) in Hrun. injection Hrun as <- <-.
    by apply (plan_track_file_raise_inv tf root w e' w1).
Qed.

(** *** The paths planned *)

Lemma join_step_prefix path b : SLASH ∉ b → path `prefix_of` join_step path b.
Proof.
  intros Hb. rewrite join_step_name by by apply name_not_absolute.
  by eexists.
Qed.

Lemma track_file_name_suffix m : endswith (track_file_name m) (py ".mp3") = true.
Proof. apply endswith_app. Qed.

(** X7.  With the join of [posixpath], the three paths planned for a track
    extend one another as texts, from the root on: the sanitizer has
    rewritten every separator of a tag, so no tag starts a component with
    one and restarts the path; and the target always carries the
    extension, with at least one character after the album directory.
    This is about the text of the paths only (a segment of two dots still
    names the directory above), and about the separator of [posixpath]
    only. *)
Theorem planned_paths_nest tf root w loc w1 :
  plan_track_file tf root w = (Return loc, w1) →
  root `prefix_of` artist_dir loc ∧
  artist_dir loc `prefix_of` album_dir loc ∧
  album_dir loc `prefix_of` track_new_path loc ∧
  track_new_path loc ≠ album_dir loc ∧
  endswith (track_new_path loc) (py ".mp3") = true.
Proof.
  intros (f & m & a & -> & Hm & Ha & ->)%plan_track_file_inv.
  cbn [artist_dir album_dir track_new_path]. unfold os_path_join. cbn [foldl].
  destruct (track_file_name_is_name m) as [Hne Hsep].
  split_and!.
  - apply join_step_prefix, sanitize_no_sep.
  - apply join_step_prefix, album_segment_no_sep.
  - by apply join_step_prefix.
  - rewrite (join_step_name _ (track_file_name m)) by by apply name_not_absolute.
    intros Heq. apply (f_equal length) in Heq. rewrite !length_app in Heq.
    destruct (track_file_name m); [done|]. simpl in Heq. lia.
  - rewrite (join_step_name _ (track_file_name m)) by by apply name_not_absolute.
    unfold track_file_name. rewrite !(assoc_L (++)). apply endswith_app.
Qed.

(** X8.  An artist tag that sanitizes to the empty text (white space, or
    question marks and quotes only) is not a missing artist: the planning
    goes on, the artist directory is the root itself and the track is
    planned under root/album. *)
Theorem blank_artist_is_accepted f m a root w :
  tags f = Some m → m !! ARTIST = Some a → sanitize_file_name_text a = [] →
  ∃ lg, plan_track_file (Some f) root w =
    (Return {|
       artist_dir := root ++ sep_after root;
       album_dir := os_path_join root [album_segment m];
       track_new_path := os_path_join root [album_segment m; track_file_name m] |},
     World (fs w) lg).
Proof.
  intros Hm Ha Hblank. rewrite (plan_track_file_run f m a) by done.
  rewrite Hblank. eexists. do 2 f_equal. unfold os_path_join. cbn [foldl].
  rewrite !join_step_empty. f_equal.
  rewrite join_step_name by done. by rewrite app_nil_r.
Qed.

(** *** Collisions *)

(** X9.  Two tracks planned at the same path: once the first is moved, a call
    for the second returns [False] and moves nothing, whatever its source
    is. *)
Theorem colliding_track_is_skipped tf1 tf2 src1 src2 root dry w w' loc1 loc2 w1 w2 :
  plan_track_file tf1 root w = (Return loc1, w1) →
  plan_track_file tf2 root w = (Return loc2, w2) →
  track_new_path loc1 = track_new_path loc2 →
  unflatten_track_file tf1 src1 root false w = (Return true, w') →
  ∃ lg, unflatten_track_file tf2 src2 root dry w' = (Return false, World (fs w') lg).
Proof.
  intros Hp1 Hp2 Hsame Hrun.
  destruct (unflatten_cases tf1 src1 root false w)
    as [(e & He & _)|(loc & w0 & Hp & Hfs & Hc)]; [congruence|].
  assert (loc = loc1) as -> by congruence.
  destruct (sys_exists (track_new_path loc1) (fs w)); [congruence|].
  destruct Hc as [(e & w3 & Hc)|(w3 & Hc & Hex)]; [congruence|].
  assert (w3 = w') as -> by congruence.
  destruct (plan_track_file_indep _ _ _ w' _ _ Hp2) as [lg Hp2'].
  pose proof (plan_track_file_fs _ _ _ _ _ Hp2') as Hfs2.
  rewrite (unflatten_skip _ _ _ _ _ _ _ Hp2') by (by rewrite <- Hsame).
  by eexists.
Qed.

(** X10.  A track without title tag is planned at [.mp3] in its album directory,
    so of the title-less tracks of one artist and album only the first is
    moved: a call for another one, after it, returns [False]. *)
Theorem untitled_tracks_collide f1 f2 m1 m2 a src1 src2 root dry w w' :
  tags f1 = Some m1 → tags f2 = Some m2 →
  m1 !! ARTIST = Some a → m2 !! ARTIST = Some a →
  m1 !! ALBUM_TITLE = m2 !! ALBUM_TITLE →
  m1 !! TRACK_TITLE = None → m2 !! TRACK_TITLE = None →
  track_file_name m1 = py ".mp3" ∧
  (unflatten_track_file (Some f1) src1 root false w = (Return true, w') →
   ∃ lg, unflatten_track_file (Some f2) src2 root dry w' = (Return false, World (fs w') lg)).
Proof.
  intros Hm1 Hm2 Ha1 Ha2 Halbum Ht1 Ht2.
  assert (Hname : ∀ m, m !! TRACK_TITLE = None → track_file_name m = py ".mp3").
  { intros m Ht. unfold track_file_name, tag_text. by rewrite Ht. }
  split; [by apply Hname|]. intros Hrun.
  destruct (unflatten_cases (Some f1) src1 root false w)
    as [(e & He & _)|(loc & w0 & Hp & Hfs & Hc)]; [congruence|].
  destruct (sys_exists (track_new_path loc) (fs w)); [congruence|].
  destruct Hc as [(e & w3 & Hc)|(w3 & Hc & Hex)]; [congruence|].
  assert (w3 = w') as -> by congruence.
  rewrite (plan_track_file_run f1 m1 a) in Hp by done. injection Hp as <- _.
  cbn [track_new_path] in Hex.
  assert (Hseg : album_segment m1 = album_segment m2).
  { unfold album_segment, tag_text. by rewrite Halbum. }
  rewrite Hseg, (Hname m1), <- (Hname m2) in Hex by done.
  pose proof (plan_track_file_run f2 m2 a root w' Hm2 Ha2) as Hp2. cbv zeta in Hp2.
  rewrite (unflatten_skip _ _ _ _ _ _ _ Hp2); [by eexists|exact Hex].
Qed.

End MoreRuns.

(** ** The batch *)

(** *** Error records *)

Lemma errors_app lg1 lg2 : errors (lg1 ++ lg2) = (errors lg1 + errors lg2)%nat.
Proof. unfold errors. by rewrite filter_app, length_app. Qed.

Lemma errors_singleton l msg :
  errors [(l, msg)] = if decide (l = ERROR) then 1%nat else 0%nat.
Proof.
  unfold errors. rewrite filter_cons, filter_nil. cbn [fst].
  by destruct (decide (l = ERROR)).
Qed.

Lemma errors_nil : errors [] = 0%nat.
Proof. done. Qed.

Ltac count_errors :=
  rewrite ?errors_app, ?errors_singleton, ?errors_nil;
  repeat (rewrite decide_False by done);
  repeat (rewrite decide_True by done).

Section Batch.
Context {FS : Type} `{!Platform FS}.
Implicit Types (w : world FS) (m : gmap text text) (f : FileType) (c : counters).

(** *** Loops *)

(** *** The log of the executor *)

Lemma move_chain_log ad ald src dst w :
  log ((confirm_or_create_dir ad;; confirm_or_create_dir ald;; os_rename src dst) w).2
  = log w.
Proof.
  rewrite bind_run, confirm_or_create_dir_run.
  destruct (sys_exists ad (fs w)).
  - rewrite bind_run, confirm_or_create_dir_run.
    destruct (sys_exists ald (fs w)).
    + unfold os_rename. by destruct (sys_rename src dst (fs w)).
    + destruct (sys_mkdir ald (fs w)); [done|].
      unfold os_rename. cbn [fs]. by destruct (sys_rename src dst _).
  - destruct (sys_mkdir ad (fs w)) as [|s1]; [done|].
    rewrite bind_run, confirm_or_create_dir_run. cbn [fs].
    destruct (sys_exists ald s1).
    + unfold os_rename. cbn [fs]. by destruct (sys_rename src dst _).
    + destruct (sys_mkdir ald s1); [done|].
      unfold os_rename. cbn [fs]. by destruct (sys_rename src dst _).
Qed.

Lemma unflatten_track_file_errors tf src root dry w :
  errors (log (unflatten_track_file tf src root dry w).2) = errors (log w).
Proof.
  destruct (plan_track_file tf root w) as [[loc|e] w1] eqn:Hp.
  - assert (Hw1 : errors (log w1) = errors (log w)).
    { destruct (plan_track_file_inv _ _ _ _ _ Hp) as (f & m & a & -> & Hm & Ha & _).
      rewrite (plan_track_file_run f m a) in Hp by done. injection Hp as _ <-.
      cbn [log]. rewrite !errors_app. unfold missing_keys.
      destruct (m !! ALBUM_TITLE), (m !! TRACK_TITLE); count_errors; lia. }
    destruct (sys_exists (track_new_path loc) (fs w1)) eqn:Hex.
    + rewrite (unflatten_skip _ _ _ _ _ _ _ Hp Hex). cbn [snd log].
      count_errors. lia.
    + destruct dry.
      * by rewrite (unflatten_dry _ _ _ _ _ _ Hp Hex).
      * rewrite (unflatten_move _ _ _ _ _ _ Hp Hex).
        pose proof (move_chain_log (artist_dir loc) (album_dir loc) src
                      (track_new_path loc) w1) as Hlog.
        match goal with |- context [match ?c with _ => _ end] =>
          destruct c as [[[]|e] w'] end; cbn [snd] in *; by rewrite Hlog.
  - rewrite (unflatten_raise _ _ _ _ _ _ _ Hp).
    by destruct (plan_track_file_raise_inv _ _ _ _ _ Hp) as [-> _].
Qed.

Lemma unflatten_track_file_dry_fs tf src root w :
  fs (unflatten_track_file tf src root true w).2 = fs w.
Proof.
  destruct (unflatten_cases tf src root true w)
    as [(e & He & _)|(loc & w1 & Hp & Hfs & Hc)]; [by rewrite He|].
  destruct (sys_exists (track_new_path loc) (fs w)); by rewrite Hc.
Qed.

(** *** One entry of the batch *)

Lemma audio_is_no_image file :
  endswith file (py "mp3") = true → endswith file (py "jpg") = false.
Proof.
  intros [r ->]%endswith_spec. unfold endswith. by rewrite reverse_app.
Qed.

Lemma unflatten_entry_dry_fs c file w : fs (unflatten_entry true c file w).2 = fs w.
Proof.
  unfold unflatten_entry. destruct (endswith file (py "mp3")).
  - rewrite unflatten_audio_entry_run.
    destruct (sys_mutagen_File _ (fs w)) as [e|tf]; [done|]. cbn zeta.
    pose proof (unflatten_track_file_dry_fs tf (os_path_join MUSIC_DIR [file]) MUSIC_DIR
                  (World (fs w) (log w ++ [(INFO, Handling file)]))) as Hfs.
    destruct (unflatten_track_file tf _ MUSIC_DIR true _) as [[b|[]] w']; exact Hfs.
  - by destruct (endswith file (py "jpg")).
Qed.

(** What one entry adds to the counters and to the error records. *)
Lemma unflatten_entry_accounting dry c file w c' w' :
  unflatten_entry dry c file w = (Return c', w') →
  jpg_count c' = (jpg_count c + length (image_names [file]))%nat ∧
  (count c' + file_existed_count c' + errors (log w')
   = count c + file_existed_count c + errors (log w) + length (audio_names [file]))%nat.
Proof.
  unfold unflatten_entry, audio_names, image_names. rewrite !filter_cons, !filter_nil.
  destruct (endswith file (py "mp3")) eqn:Hmp3.
  - rewrite (audio_is_no_image _ Hmp3).
    rewrite (decide_True (P := true = true)), (decide_False (P := false = true)) by done.
    rewrite unflatten_audio_entry_run.
    destruct (sys_mutagen_File _ (fs w)) as [e|tf]; [done|]. cbn zeta.
    pose proof (unflatten_track_file_errors tf (os_path_join MUSIC_DIR [file]) MUSIC_DIR dry
                  (World (fs w) (log w ++ [(INFO, Handling file)]))) as Herr.
    cbn [log] in Herr. rewrite errors_app, errors_singleton in Herr.
    rewrite decide_False in Herr by done.
    destruct (unflatten_track_file tf _ MUSIC_DIR dry _) as [[b|[]] w1]; try done;
      intros [= <- <-]; cbn [snd log count jpg_count file_existed_count length] in *.
    + split; [lia|]. destruct b; cbn [int negb]; lia.
    + split; [lia|]. count_errors. lia.
  - rewrite (decide_False (P := false = true)) by done.
    destruct (endswith file (py "jpg")) eqn:Hjpg.
    + rewrite (decide_True (P := true = true)) by done. intros [= <- <-]. cbn. lia.
    + rewrite (decide_False (P := false = true)) by done. intros [= <- <-]. cbn. lia.
Qed.

Lemma for_each_accounting dry files c w c' w' :
  for_each (unflatten_entry dry) files c w = (Return c', w') →
  jpg_count c' = (jpg_count c + length (image_names files))%nat ∧
  (count c' + file_existed_count c' + errors (log w')
   = count c + file_existed_count c + errors (log w) + length (audio_names files))%nat.
Proof.
  revert c w. induction files as [|file files IH]; intros c w.
  - intros [= <- <-]. cbn. lia.
  - cbn [for_each]. rewrite bind_run.
    destruct (unflatten_entry dry c file w) as [[c1|e] w1] eqn:Hstep; [|done].
    intros Hrest. apply IH in Hrest as [Hj Hs].
    apply unflatten_entry_accounting in Hstep as [Hj1 Hs1].
    change (file :: files) with ([file] ++ files).
    unfold audio_names, image_names in *. rewrite !filter_app, !length_app. lia.
Qed.

(** *** The batch *)

(** X11.  A dry run of the batch leaves the file system as it was, however it
    ends. *)
Theorem batch_dry_run_frame w :
  fs (mutagen_dialect_unflatten true w).2 = fs w.
Proof.
  rewrite mutagen_dialect_unflatten_run.
  destruct (sys_listdir MUSIC_DIR (fs w)) as [e|files]; [done|].
  pose proof (for_each_fs (unflatten_entry true) files unflatten_entry_dry_fs
                (Counters 0 0 0) (World (fs w) (log w ++ [(INFO, Initiating)]))) as Hfs.
  by destruct (for_each _ files _ _) as [[c|e] w'].
Qed.

(** X12.  A batch that ends normally has logged its report last, and the report
    accounts for every entry: the total is the length of the listing, the
    images are the names that end with [jpg], and every name that ends with
    [mp3] is counted once, as moved, as found in place, or as an error
    record of the log. *)
Theorem batch_accounting dry w w' :
  mutagen_dialect_unflatten dry w = (Return (), w') →
  ∃ files report,
    sys_listdir MUSIC_DIR (fs w) = inr files ∧
    last (log w') = Some (INFO, Finished report) ∧
    TOTAL_FILES report = length files ∧
    JPG_FILES report = length (image_names files) ∧
    (MP3_FILES_MOVED report + MP3_FILES_EXISTED report + errors (log w')
     = errors (log w) + length (audio_names files))%nat.
Proof.
  rewrite mutagen_dialect_unflatten_run.
  destruct (sys_listdir MUSIC_DIR (fs w)) as [e|files]; [done|].
  destruct (for_each _ files _ _) as [[c|e] w1] eqn:Hloop; [|done].
  intros [= <-]. apply for_each_accounting in Hloop as [Hj Hs].
  eexists files, _. split_and!.
  - done.
  - cbn [log]. by rewrite last_snoc.
  - done.
  - by cbn.
  - cbn [MP3_FILES_MOVED MP3_FILES_EXISTED log] in *.
    revert Hs. count_errors. cbn. lia.
Qed.

(** X13.  Only a [KeyError] is caught: an audio entry that [mutagen.File] does
    not recognise ([None]), or whose file has no tag mapping, ends the batch
    with the error of the lookup; the entries after it are not handled and
    no report is logged. *)
Theorem batch_stops_at_untagged_file dry w pre file post c1 w1 track_file :
  sys_listdir MUSIC_DIR (fs w) = inr (pre ++ file :: post) →
  for_each (unflatten_entry dry) pre (Counters 0 0 0)
    (World (fs w) (log w ++ [(INFO, Initiating)])) = (Return c1, w1) →
  endswith file (py "mp3") = true →
  sys_mutagen_File (os_path_join MUSIC_DIR [file]) (fs w1) = inr track_file →
  (track_file = None ∨ ∃ f, track_file = Some f ∧ tags f = None) →
  mutagen_dialect_unflatten dry w =
  (Raise (if track_file is None then AttributeError else TypeError),
   World (fs w1) (log w1 ++ [(INFO, Handling file)])).
Proof.
  intros Hlist Hpre Hmp3 Hfile Htrack.
  rewrite mutagen_dialect_unflatten_run, Hlist, for_each_app, Hpre.
  cbn [for_each]. rewrite bind_run. unfold unflatten_entry. rewrite Hmp3.
  rewrite unflatten_audio_entry_run, Hfile. cbn zeta.
  destruct Htrack as [-> | (f & -> & Hnone)].
  - done.
  - unfold unflatten_track_file, plan_track_file. rewrite !bind_run.
    unfold tags_getitem. by rewrite Hnone.
Qed.

End Batch.

(** ** The repair and the extensions *)

Section Repair.
Context {FS : Type} `{!Platform FS}.
Implicit Types (w : world FS) (m : gmap text text).

(** *** The repair of extensions *)

Lemma fix_track_run a dry track w :
  fix_track a dry () track w =
  if endswith track (py ".mp3") then (Return (), w)
  else
    let old := os_path_join a [track] in
    let w1 := World (fs w) (log w ++ [(STDOUT, Old old); (STDOUT, New (old ++ py ".mp3"))]) in
    if dry then (Return (), w1)
    else match sys_rename old (old ++ py ".mp3") (fs w) with
         | inr s' => (Return (), World s' (log w1))
         | inl e => (Raise (exception_of e), w1)
         end.
Proof.
  unfold fix_track. destruct (endswith track (py ".mp3")); cbn [negb]; [done|].
  cbn zeta. rewrite bind_run. unfold logging at 1. rewrite bind_run.
  unfold logging. cbn [fs log].
  rewrite <- (assoc_L (++)). destruct dry; cbn [negb]; [done|].
  unfold os_rename. cbn [fs log]. by destruct (sys_rename _ _ (fs w)).
Qed.

Lemma comprehension_if_fs {A} (p : A → M FS bool) l :
  (∀ x w, fs (p x w).2 = fs w) → ∀ w, fs (comprehension_if p l w).2 = fs w.
Proof.
  intros Hp. induction l as [|x l IH]; intros w; [done|].
  cbn [comprehension_if]. rewrite bind_run. specialize (Hp x w).
  destruct (p x w) as [[b|e] w1]; [|done]. rewrite bind_run. specialize (IH w1).
  destruct (comprehension_if p l w1) as [[r|e] w2]; simpl in *; congruence.
Qed.

Lemma os_listdir_fs p w : fs (os_listdir (FS:=FS) p w).2 = fs w.
Proof. unfold os_listdir. by destruct (sys_listdir p (fs w)). Qed.

(** X14.  A dry run of the repair leaves the file system as it was, however it
    ends. *)
Theorem repair_dry_run_frame root w :
  fs (fix_missing_file_extensions root true w).2 = fs w.
Proof.
  unfold fix_missing_file_extensions. rewrite bind_run.
  pose proof (os_listdir_fs root w) as Hl.
  destruct (os_listdir root w) as [[files|e] w1]; [|done]. cbn [snd] in Hl.
  rewrite bind_run.
  pose proof (comprehension_if_fs
    (λ f, os_path_isdir (os_path_join root [f])) files (λ _ _, eq_refl) w1) as Hd.
  destruct (comprehension_if _ files w1) as [[dirs|e] w2]; cbn [snd] in Hd;
    [|simpl; congruence].
  rewrite <- Hl, <- Hd. apply for_each_fs. clear. intros [] d w.
  rewrite bind_run. pose proof (os_listdir_fs (os_path_join root [d]) w) as Hl.
  destruct (os_listdir _ w) as [[albums|e] w1]; [|done]. cbn [snd] in Hl.
  rewrite <- Hl. apply for_each_fs. clear. intros [] album w.
  rewrite bind_run.
  pose proof (os_listdir_fs (os_path_join (os_path_join root [d]) [album]) w) as Hl.
  destruct (os_listdir _ w) as [[tracks|e] w1]; [|done]. cbn [snd] in Hl.
  rewrite <- Hl. apply for_each_fs. clear. intros [] track w.
  rewrite fix_track_run. by destruct (endswith track (py ".mp3")).
Qed.

(** X15.  The repair descends into directories only: over a root none of whose
    entries is a directory it returns with nothing renamed and nothing
    printed. *)
Theorem repair_of_flat_directory root dry w files :
  sys_listdir root (fs w) = inr files →
  (∀ f, f ∈ files → sys_isdir (os_path_join root [f]) (fs w) = false) →
  fix_missing_file_extensions root dry w = (Return (), w).
Proof.
  intros Hlist Hflat. unfold fix_missing_file_extensions.
  rewrite bind_run. unfold os_listdir. rewrite Hlist. rewrite bind_run.
  assert (Hnone : comprehension_if
            (λ f, os_path_isdir (os_path_join root [f])) files w = (Return [], w)).
  { clear Hlist. induction files as [|f files IH]; [done|].
    cbn [comprehension_if]. rewrite bind_run. unfold os_path_isdir at 1.
    rewrite Hflat by by left. rewrite bind_run, IH; [done|].
    intros f' Hf'. apply Hflat. by right. }
  by rewrite Hnone.
Qed.

(** X16.  The repair leaves alone every name that ends with [.mp3]: the names
    the executor gives its targets, and the names it has itself produced.
    A name it does rename is, after the rename, in place with the
    extension. *)
Theorem fix_track_keeps_extension a w :
  (∀ dry p, fix_track a dry () (p ++ py ".mp3") w = (Return (), w)) ∧
  (∀ dry m, fix_track a dry () (track_file_name m) w = (Return (), w)) ∧
  (∀ track w', endswith track (py ".mp3") = false →
     fix_track a false () track w = (Return (), w') →
     sys_exists (os_path_join a [track] ++ py ".mp3") (fs w') = true ∧
     log w' = log w ++ [(STDOUT, Old (os_path_join a [track]));
                        (STDOUT, New (os_path_join a [track] ++ py ".mp3"))]).
Proof.
  split_and!.
  - intros dry p. by rewrite fix_track_run, endswith_app.
  - intros dry m. by rewrite fix_track_run, track_file_name_suffix.
  - intros track w' Hext. rewrite fix_track_run, Hext. cbn zeta.
    destruct (sys_rename _ _ (fs w)) as [e|s'] eqn:Hr; [done|].
    intros [= <-]. split; [by eapply sys_rename_exists|done].
Qed.

(** *** Extensions *)

(** X17.  The extension a name is counted under is what follows its last dot,
    and the whole name when it has no dot. *)
Theorem extension_of_name :
  (∀ name, DOT ∉ name → extension name = name) ∧
  (∀ p e, DOT ∉ e → extension (p ++ DOT :: e) = e) ∧
  (∀ p, extension (p ++ [DOT]) = []).
Proof.
  unfold extension. change (py ".") with [DOT]. split_and!.
  - intros name Hd. by rewrite rpartition_not_found.
  - intros p e Hd. by rewrite rpartition_found.
  - intros p. rewrite rpartition_found; [done|apply not_elem_of_nil].
Qed.

(** X18.  The dictionary of [get_aggregate_data] holds, for each extension that
    occurs, the number of names of the listing with that extension, and
    nothing else; its counts add up to the number of names.  A listing that
    fails is the failure of the call. *)
Theorem get_aggregate_data_counts directory w :
  match sys_listdir directory (fs w) with
  | inl e => get_aggregate_data directory w = (Raise (exception_of e), w)
  | inr file_names =>
      ∃ extensions,
        get_aggregate_data directory w = (Return extensions, w) ∧
        (∀ e n, extensions !! e = Some n ↔
           n = length (filter (λ name, extension name = e) file_names) ∧ (0 < n)%nat) ∧
        total extensions = length file_names
  end.
Proof.
  unfold get_aggregate_data. rewrite bind_run. unfold os_listdir.
  destruct (sys_listdir directory (fs w)) as [e|names]; [done|].
  eexists. split; [done|]. split.
  - intros e n.
    pose proof (foldl_count_extension_lookup names ∅ e) as Hn.
    rewrite lookup_empty in Hn. cbn [default] in Hn. split.
    + intros Hsome. rewrite Hsome in Hn. cbn in Hn. split; [lia|].
      eapply (foldl_count_extension_positive names ∅); [|done].
      intros e' n'. by rewrite lookup_empty.
    + intros [-> Hpos].
      destruct (foldl count_extension ∅ names !! e) as [k|]; cbn in Hn; [f_equal|]; lia.
  - rewrite foldl_count_extension_total. unfold total. by rewrite map_fold_empty.
Qed.

End Repair.

(** ** The batch on the reference file system *)

Section Reference.
Import RefFS Moves.
Implicit Types (st s : state) (p d name : text).

Lemma representable_app p q : representable (p ++ q) = representable p && representable q.
Proof. apply forallb_app. Qed.

Lemma depth_app p q : depth (p ++ q) = (depth p + depth q)%nat.
Proof. unfold depth. by rewrite filter_app, length_app. Qed.

Lemma depth_name name : SLASH ∉ name → depth name = 0%nat.
Proof.
  unfold depth. induction name as [|c name IH]; [done|].
  rewrite not_elem_of_cons. intros [Hc Hn].
  rewrite filter_cons, decide_False by done. by apply IH.
Qed.

Lemma depth_sep p : depth (SLASH :: p) = S (depth p).
Proof. unfold depth. by rewrite filter_cons, decide_True. Qed.

Lemma endswith_name path b : b ≠ [] → SLASH ∉ b → endswith (path ++ b) [SLASH] = false.
Proof.
  intros Hb Hs.
  assert (∃ b' c, b = b' ++ [c]) as (b' & c & ->).
  { clear Hs. induction b as [|x b IH] using rev_ind; [done|]. eauto. }
  rewrite (assoc_L (++)), endswith_snoc. apply N.eqb_neq.
  intros ->. apply Hs. set_solver.
Qed.

Lemma drop_name_app l r : SLASH ∉ l → drop_name (l ++ SLASH :: r) = SLASH :: r.
Proof.
  induction l as [|c l IH]; intros Hl.
  - done.
  - apply not_elem_of_cons in Hl as [Hc Hl]. cbn [app drop_name].
    rewrite (proj2 (N.eqb_neq c SLASH)) by done. by apply IH.
Qed.

(** [posixpath.dirname] of a path and a name under it. *)
Lemma dirname_join p name :
  p ≠ [] → endswith p [SLASH] = false → SLASH ∉ name →
  dirname (p ++ SLASH :: name) = p.
Proof.
  intros Hp Hend Hname.
  assert (∃ p' c, p = p' ++ [c] ∧ c ≠ SLASH) as (p' & c & -> & Hc).
  { destruct p as [|x p] using rev_ind; [done|]. exists p, x. split; [done|].
    rewrite endswith_snoc in Hend. by apply N.eqb_neq. }
  unfold dirname.
  rewrite reverse_app, reverse_cons, <- (assoc_L (++)). cbn [app].
  rewrite drop_name_app by (by rewrite elem_of_reverse).
  rewrite reverse_cons, reverse_involutive.
  rewrite bool_decide_eq_true_2 by (by destruct (p' ++ [c])).
  rewrite !forallb_app. cbn [forallb].
  rewrite (proj2 (N.eqb_neq SLASH c)) by done.
  rewrite andb_false_r. cbn [andb negb].
  rewrite reverse_app. cbn [reverse app]. rewrite reverse_app. cbn.
  rewrite (proj2 (N.eqb_neq c SLASH)) by done.
  change (rev_append ?l []) with (reverse l).
  by rewrite reverse_cons, reverse_involutive.
Qed.

Lemma MUSIC_DIR_name : MUSIC_DIR ≠ [] ∧ endswith MUSIC_DIR [SLASH] = false.
Proof. done. Qed.

(** The paths planned under the music directory for an artist and an album
    segment that are not empty: the names, each behind a separator. *)
Lemma planned_under_music a al t :
  a ≠ [] → SLASH ∉ a → al ≠ [] → SLASH ∉ al → SLASH ∉ t →
  os_path_join MUSIC_DIR [a] = MUSIC_DIR ++ SLASH :: a ∧
  os_path_join (os_path_join MUSIC_DIR [a]) [al] = (MUSIC_DIR ++ SLASH :: a) ++ SLASH :: al ∧
  os_path_join MUSIC_DIR [a; al; t] = ((MUSIC_DIR ++ SLASH :: a) ++ SLASH :: al) ++ SLASH :: t.
Proof.
  intros Ha Hsa Hal Hsal Hst.
  assert (H1 : join_step MUSIC_DIR a = MUSIC_DIR ++ SLASH :: a).
  { by rewrite join_step_name by by apply name_not_absolute. }
  assert (H2 : join_step (MUSIC_DIR ++ SLASH :: a) al = (MUSIC_DIR ++ SLASH :: a) ++ SLASH :: al).
  { rewrite join_step_name by by apply name_not_absolute.
    rewrite bool_decide_eq_false_2 by (by destruct MUSIC_DIR).
    by rewrite (endswith_name (MUSIC_DIR ++ [SLASH]) a Ha Hsa
                  : endswith (MUSIC_DIR ++ SLASH :: a) [SLASH] = false)
      by (by rewrite <- (assoc_L (++))). }
  unfold os_path_join. cbn [foldl]. rewrite H1, H2. split_and!; [done..|].
  rewrite join_step_name by by apply name_not_absolute.
  rewrite bool_decide_eq_false_2 by (by destruct (MUSIC_DIR ++ SLASH :: a)).
  pose proof (endswith_name ((MUSIC_DIR ++ SLASH :: a) ++ [SLASH]) al Hal Hsal) as Hend.
  rewrite <- (assoc_L (++)) in Hend. cbn [app] in Hend. by rewrite Hend.
Qed.

Lemma reference_confirm d st lg :
  representable d = true → st !! dirname d = Some Dir →
  st !! d = Some Dir ∨ st !! d = None →
  confirm_or_create_dir d (World st lg) = (Return true, World (<[d := Dir]> st) lg).
Proof.
  intros Hrep Hparent Hd. rewrite confirm_or_create_dir_run.
  cbn [fs log]. change (sys_exists d st) with (exists_ d st).
  change (sys_mkdir d st) with (mkdir d st). unfold mkdir, exists_. rewrite Hrep.
  cbn [andb negb]. destruct Hd as [Hd|Hd]; rewrite Hd.
  - rewrite bool_decide_eq_true_2 by eauto. by rewrite insert_id.
  - rewrite bool_decide_eq_false_2 by (by intros [? ?]). by rewrite Hparent.
Qed.

Lemma representable_prefix p q : representable (p ++ q) = true → representable p = true.
Proof. rewrite representable_app. by intros [? _]%andb_true_iff. Qed.

(** The move of a track on the reference file system: from a state with
    the music directory, the source a file, nothing at the target and
    nothing but directories at the two directories, the call returns
    [True] and leaves the file at the target, under the two directories. *)
Lemma reference_move st lg f m a src c :
  tags f = Some m → m !! ARTIST = Some a →
  sanitize_file_name_text a ≠ [] → album_segment m ≠ [] →
  let A := os_path_join MUSIC_DIR [sanitize_file_name_text a] in
  let B := os_path_join A [album_segment m] in
  let T := os_path_join MUSIC_DIR
             [sanitize_file_name_text a; album_segment m; track_file_name m] in
  representable src = true → representable T = true →
  st !! MUSIC_DIR = Some Dir → st !! src = Some (File c) → st !! T = None →
  st !! A = Some Dir ∨ st !! A = None →
  st !! B = Some Dir ∨ st !! B = None →
  unflatten_track_file (Some f) src MUSIC_DIR false (World st lg) =
  (Return true,
   World (moved src A B T c st)
     (lg ++ missing_keys (filename f) m
      ++ [(INFO, TrackInfo (album_segment m) (tag_text m TRACK_TITLE)
                   (sanitize_file_name_text a))])).
Proof.
  intros Hm Ha Hartist Halbum A B T Hrs HrT Hroot Hsrc HT HA HB.
  destruct (track_file_name_is_name m) as [_ Hst].
  destruct (planned_under_music (sanitize_file_name_text a) (album_segment m)
              (track_file_name m))
    as (EA & EB & ET); [done|apply sanitize_no_sep|done|apply album_segment_no_sep|done|].
  pose proof (plan_track_file_run f m a MUSIC_DIR (World st lg) Hm Ha) as Hp.
  cbv zeta in Hp. fold A in Hp. fold B in Hp. fold T in Hp.
  assert (HrB : representable B = true).
  { unfold B, A. rewrite EB. unfold T in HrT. rewrite ET in HrT.
    by apply representable_prefix in HrT. }
  assert (HrA : representable A = true).
  { unfold A. rewrite EA. unfold B, A in HrB. rewrite EB in HrB.
    by apply representable_prefix in HrB. }
  assert (HdA : dirname A = MUSIC_DIR).
  { unfold A. rewrite EA. apply dirname_join; [done..|apply sanitize_no_sep]. }
  assert (HdB : dirname B = A).
  { unfold B, A. rewrite EB, EA. apply dirname_join; [by destruct MUSIC_DIR| |].
    - apply (endswith_name (MUSIC_DIR ++ [SLASH])); [done|apply sanitize_no_sep].
    - apply album_segment_no_sep. }
  assert (HdT : dirname T = B).
  { unfold T, B, A. rewrite ET, EB. apply dirname_join; [by destruct MUSIC_DIR| |done].
    rewrite <- (assoc_L (++)). cbn [app].
    pose proof (endswith_name ((MUSIC_DIR ++ SLASH :: sanitize_file_name_text a) ++ [SLASH])
                  (album_segment m) Halbum (album_segment_no_sep m)) as Hend.
    by rewrite <- !(assoc_L (++)) in Hend. }
  assert (HTA : T ≠ A ∧ T ≠ B).
  { unfold T, B, A. rewrite ET, EB, EA.
    split; intros Heq; apply (f_equal depth) in Heq;
      rewrite ?depth_app, ?depth_sep in Heq; lia. }
  destruct HTA as [HTA HTB].
  rewrite (unflatten_move _ _ _ _ _ _ Hp).
  2:{ cbn [track_new_path fs]. change (sys_exists T st) with (exists_ T st).
      unfold exists_. rewrite HT, andb_false_intro2; [done|].
      apply bool_decide_eq_false_2. by intros [? ?]. }
  cbn [artist_dir album_dir track_new_path].
  rewrite bind_run, reference_confirm by (rewrite ?HdA; done).
  rewrite bind_run, reference_confirm.
  2: done.
  2: by rewrite HdB, lookup_insert_eq.
  2:{ rewrite lookup_insert. case_decide; [by left|done]. }
  unfold os_rename. cbn [fs log].
  change (sys_rename src T ?s0) with (rename src T s0). unfold rename.
  rewrite Hrs, HrT. cbn [andb negb].
  assert (HsA : src ≠ A) by (intros ->; destruct HA; congruence).
  assert (HsB : src ≠ B) by (intros ->; destruct HB; congruence).
  assert (HsT : src ≠ T) by (intros ->; congruence).
  rewrite !lookup_insert_ne by done. rewrite Hsrc.
  rewrite bool_decide_eq_false_2 by done.
  rewrite HdT, lookup_insert_eq.
  rewrite (lookup_insert_ne _ B T), (lookup_insert_ne _ A T), HT by done. done.
Qed.

Lemma lookup_moved src A B T c st p :
  moved src A B T c st !! p =
  if decide (T = p) then Some (File c)
  else if decide (src = p) then None
  else if decide (B = p) then Some Dir
  else if decide (A = p) then Some Dir
  else st !! p.
Proof. unfold moved. by rewrite lookup_insert, lookup_delete, !lookup_insert. Qed.

Lemma batch_inv_swap s e1 S1 A1 B1 T1 e2 S2 A2 B2 T2 st :
  batch_inv s e1 S1 A1 B1 T1 e2 S2 A2 B2 T2 st →
  batch_inv s e2 S2 A2 B2 T2 e1 S1 A1 B1 T1 st.
Proof.
  intros (Hframe & H1 & H2). split_and!; [|done..].
  intros p Hp. apply Hframe. intros Hin. apply Hp.
  rewrite !elem_of_cons, elem_of_nil in Hin |- *. tauto.
Qed.

(** The invariant when the first of the two tracks is moved. *)
Lemma batch_inv_move s st S A B T c e' S' A' B' T' :
  s !! S = Some (File c) → is_Some (s !! S') →
  s !! A = None → s !! B = None → s !! T = None →
  s !! A' = None → s !! B' = None → s !! T' = None →
  S ≠ S' → T ≠ T' → T ≠ A → T ≠ B → T ≠ A' → T ≠ B' → T' ≠ A → T' ≠ B →
  batch_inv s false S A B T e' S' A' B' T' st →
  batch_inv s true S A B T e' S' A' B' T' (moved S A B T c st).
Proof.
  intros HS [c' HS'] HA HB HT HA' HB' HT' HSS HTT HTA HTB HTA' HTB' HT'A HT'B.
  intros (Hframe & _ & (HoT & HoS & HoA & HoB)).
  assert (S ≠ A ∧ S ≠ B ∧ S ≠ T ∧ S ≠ A' ∧ S ≠ B' ∧ S ≠ T') as (? & ? & ? & ? & ? & ?).
  { split_and!; intros Heq; rewrite Heq in HS; congruence. }
  assert (S' ≠ A ∧ S' ≠ B ∧ S' ≠ T) as (? & ? & ?).
  { split_and!; intros Heq; rewrite Heq in HS'; congruence. }
  split_and!.
  - intros p Hp. rewrite lookup_moved.
    rewrite !decide_False;
      [apply Hframe, Hp
      |intros Heq; apply Hp; rewrite <- Heq, !elem_of_cons; tauto..].
  - unfold track_ok. rewrite !lookup_moved.
    rewrite (decide_True (P := T = T)) by done.
    rewrite (decide_False (P := T = S)), (decide_True (P := S = S)) by done.
    rewrite (decide_False (P := T = A)), (decide_False (P := S = A)) by done.
    rewrite (decide_False (P := T = B)), (decide_False (P := S = B)) by done.
    rewrite (decide_True (P := B = B)) by done.
    split_and!; [done..| |by left]. left.
    destruct (decide (B = A)); [done|]. by rewrite decide_True.
  - unfold track_ok. rewrite !lookup_moved.
    rewrite (decide_False (P := T = T')), (decide_False (P := S = T')) by done.
    rewrite (decide_False (P := B = T')), (decide_False (P := A = T')) by done.
    rewrite (decide_False (P := T = S')), (decide_False (P := S = S')) by done.
    rewrite (decide_False (P := B = S')), (decide_False (P := A = S')) by done.
    rewrite (decide_False (P := T = A')), (decide_False (P := S = A')) by done.
    rewrite (decide_False (P := T = B')), (decide_False (P := S = B')) by done.
    split_and!; [done..| |].
    + destruct (decide (B = A')), (decide (A = A')); auto.
    + destruct (decide (B = B')), (decide (A = B')); auto.
Qed.

Lemma mutagen_File_inv p st f :
  mutagen_File p st = inr (Some f) →
  representable p = true ∧ filename f = p ∧ st !! p = Some (File (Audio (tags f))).
Proof.
  unfold mutagen_File. destruct (representable p); [|done]. cbn [negb].
  destruct (st !! p) as [[|[id3|]]|]; try done. by intros [= <-].
Qed.

Lemma mutagen_File_lookup p st s :
  st !! p = s !! p → mutagen_File p st = mutagen_File p s.
Proof. unfold mutagen_File. by intros ->. Qed.

(** An audio entry whose track can be moved, on the reference file
    system: it counts as moved, and without [dry_run] it is moved. *)
Lemma reference_entry_moved dry c n f m a st lg :
  endswith n (py "mp3") = true →
  mutagen_File (os_path_join MUSIC_DIR [n]) st = inr (Some f) →
  tags f = Some m → m !! ARTIST = Some a →
  sanitize_file_name_text a ≠ [] → album_segment m ≠ [] →
  let A := os_path_join MUSIC_DIR [sanitize_file_name_text a] in
  let B := os_path_join A [album_segment m] in
  let T := os_path_join MUSIC_DIR
             [sanitize_file_name_text a; album_segment m; track_file_name m] in
  representable T = true →
  st !! MUSIC_DIR = Some Dir → st !! T = None →
  st !! A = Some Dir ∨ st !! A = None →
  st !! B = Some Dir ∨ st !! B = None →
  ∃ lg',
    unflatten_entry dry c n (World st lg) =
    (Return (Counters (count c + 1) (jpg_count c) (file_existed_count c)),
     World (if dry then st
            else moved (os_path_join MUSIC_DIR [n]) A B T (Audio (Some m)) st) lg') ∧
    errors lg' = errors lg ∧
    (∀ r, r ∈ lg → r ∈ lg') ∧
    (INFO, Handling n) ∈ lg'.
Proof.
  intros Hmp3 Hfile Hm Ha Hartist Halbum A B T HrT Hroot HT HA HB.
  destruct (mutagen_File_inv _ _ _ Hfile) as (Hrs & _ & Hsrc). rewrite Hm in Hsrc.
  unfold unflatten_entry. rewrite Hmp3, unflatten_audio_entry_run. cbn [fs log].
  change (sys_mutagen_File ?p st) with (mutagen_File p st). rewrite Hfile. cbn zeta.
  eexists. split; [|split_and!].
  - destruct dry.
    + erewrite unflatten_dry; [| by apply (plan_track_file_run f m a)|].
      * cbn [int negb]. by rewrite Nat.add_0_r.
      * cbn [track_new_path fs]. fold T.
        change (sys_exists T st) with (exists_ T st). unfold exists_.
        rewrite HT, HrT. apply bool_decide_eq_false_2. by intros [? ?].
    + rewrite (reference_move st _ f m a _ (Audio (Some m))) by done.
      cbn [int negb]. by rewrite Nat.add_0_r.
  - cbn [log]. unfold missing_keys.
    destruct (m !! ALBUM_TITLE), (m !! TRACK_TITLE); count_errors; lia.
  - intros r Hr. cbn [log]. rewrite !elem_of_app. auto.
  - cbn [log]. rewrite !elem_of_app, list_elem_of_singleton. auto.
Qed.

End Reference.

Section Scenario_general.
Import RefFS Moves.
Context (s : state) (n1 n2 n3 : text) (f1 f2 f3 : FileType)
        (m1 m2 m3 : gmap text text) (a1 a2 : text).

Local Abbreviation S1 := (os_path_join MUSIC_DIR [n1]).
Local Abbreviation S2 := (os_path_join MUSIC_DIR [n2]).
Local Abbreviation S3 := (os_path_join MUSIC_DIR [n3]).
Local Abbreviation A1 := (os_path_join MUSIC_DIR [sanitize_file_name_text a1]).
Local Abbreviation B1 :=
  (os_path_join (os_path_join MUSIC_DIR [sanitize_file_name_text a1]) [album_segment m1]).
Local Abbreviation T1 :=
  (os_path_join MUSIC_DIR [sanitize_file_name_text a1; album_segment m1; track_file_name m1]).
Local Abbreviation A2 := (os_path_join MUSIC_DIR [sanitize_file_name_text a2]).
Local Abbreviation B2 :=
  (os_path_join (os_path_join MUSIC_DIR [sanitize_file_name_text a2]) [album_segment m2]).
Local Abbreviation T2 :=
  (os_path_join MUSIC_DIR [sanitize_file_name_text a2; album_segment m2; track_file_name m2]).
Local Abbreviation Inv d1 d2 st := (batch_inv s d1 S1 A1 B1 T1 d2 S2 A2 B2 T2 st).

Hypotheses
  (Hmp3_1 : endswith n1 (py "mp3") = true)
  (Hmp3_2 : endswith n2 (py "mp3") = true)
  (Hmp3_3 : endswith n3 (py "mp3") = true)
  (Hfile1 : mutagen_File S1 s = inr (Some f1))
  (Hfile2 : mutagen_File S2 s = inr (Some f2))
  (Hfile3 : mutagen_File S3 s = inr (Some f3))
  (Htags1 : tags f1 = Some m1) (Htags2 : tags f2 = Some m2) (Htags3 : tags f3 = Some m3)
  (Hartist1 : m1 !! ARTIST = Some a1) (Hartist2 : m2 !! ARTIST = Some a2)
  (Hartist3 : m3 !! ARTIST = None)
  (Hname1 : sanitize_file_name_text a1 ≠ []) (Halbum1 : album_segment m1 ≠ [])
  (Hname2 : sanitize_file_name_text a2 ≠ []) (Halbum2 : album_segment m2 ≠ [])
  (Hrep1 : representable T1 = true) (Hrep2 : representable T2 = true)
  (HA1 : s !! A1 = None) (HB1 : s !! B1 = None) (HT1 : s !! T1 = None)
  (HA2 : s !! A2 = None) (HB2 : s !! B2 = None) (HT2 : s !! T2 = None)
  (Hdistinct : T1 ≠ T2)
  (Hroot : s !! MUSIC_DIR = Some Dir).

Lemma scenario_sources :
  s !! S1 = Some (File (Audio (Some m1))) ∧ s !! S2 = Some (File (Audio (Some m2))) ∧
  s !! S3 = Some (File (Audio (Some m3))).
Proof using Hfile1 Hfile2 Hfile3 Htags1 Htags2 Htags3.
  destruct (mutagen_File_inv _ _ _ Hfile1) as (_ & _ & H1).
  destruct (mutagen_File_inv _ _ _ Hfile2) as (_ & _ & H2).
  destruct (mutagen_File_inv _ _ _ Hfile3) as (_ & _ & H3).
  by rewrite H1, H2, H3, Htags1, Htags2, Htags3.
Qed.

Lemma planned_depth a m :
  sanitize_file_name_text a ≠ [] → album_segment m ≠ [] →
  depth (os_path_join MUSIC_DIR [sanitize_file_name_text a]) = (depth MUSIC_DIR + 1)%nat ∧
  depth (os_path_join (os_path_join MUSIC_DIR [sanitize_file_name_text a]) [album_segment m])
  = (depth MUSIC_DIR + 2)%nat ∧
  depth (os_path_join MUSIC_DIR
           [sanitize_file_name_text a; album_segment m; track_file_name m])
  = (depth MUSIC_DIR + 3)%nat.
Proof.
  intros Ha Hal. destruct (track_file_name_is_name m) as [_ Hst].
  destruct (planned_under_music (sanitize_file_name_text a) (album_segment m)
              (track_file_name m))
    as (-> & -> & ->); [done|apply sanitize_no_sep|done|apply album_segment_no_sep|done|].
  rewrite !depth_app, !depth_sep.
  rewrite (depth_name _ (sanitize_no_sep a)), (depth_name _ (album_segment_no_sep m)).
  rewrite (depth_name _ Hst). lia.
Qed.

Lemma scenario_distinct :
  S1 ≠ S2 ∧ S3 ≠ S1 ∧ S3 ≠ S2 ∧
  T1 ≠ A1 ∧ T1 ≠ B1 ∧ T1 ≠ A2 ∧ T1 ≠ B2 ∧
  T2 ≠ A1 ∧ T2 ≠ B1 ∧ T2 ≠ A2 ∧ T2 ≠ B2.
Proof using All.
  destruct scenario_sources as (HS1 & HS2 & HS3).
  destruct (planned_depth a1 m1 Hname1 Halbum1) as (DA1 & DB1 & DT1).
  destruct (planned_depth a2 m2 Hname2 Halbum2) as (DA2 & DB2 & DT2).
  split_and!.
  - intros Heq. rewrite Heq, HS2 in HS1. injection HS1 as ->.
    rewrite Hartist1 in Hartist2. injection Hartist2 as ->. done.
  - intros Heq. rewrite Heq, HS1 in HS3. injection HS3 as ->. congruence.
  - intros Heq. rewrite Heq, HS2 in HS3. injection HS3 as ->. congruence.
  - intros Heq. rewrite Heq in DT1. lia.
  - intros Heq. rewrite Heq in DT1. lia.
  - intros Heq. rewrite Heq in DT1. lia.
  - intros Heq. rewrite Heq in DT1. lia.
  - intros Heq. rewrite Heq in DT2. lia.
  - intros Heq. rewrite Heq in DT2. lia.
  - intros Heq. rewrite Heq in DT2. lia.
  - intros Heq. rewrite Heq in DT2. lia.
Qed.

Lemma scenario_inv_start : Inv false false s.
Proof using HA1 HB1 HT1 HA2 HB2 HT2.
  split_and!; [done|..]; unfold track_ok; split_and!; auto.
Qed.

Lemma scenario_inv_move1 st e2 :
  Inv false e2 st → Inv true e2 (moved S1 A1 B1 T1 (Audio (Some m1)) st).
Proof using All.
  destruct scenario_sources as (HS1 & HS2 & HS3).
  destruct scenario_distinct as (? & ? & ? & ? & ? & ? & ? & ? & ? & ? & ?).
  by apply batch_inv_move.
Qed.

Lemma scenario_inv_move2 st e1 :
  Inv e1 false st → Inv e1 true (moved S2 A2 B2 T2 (Audio (Some m2)) st).
Proof using All.
  destruct scenario_sources as (HS1 & HS2 & HS3).
  destruct scenario_distinct as (? & ? & ? & ? & ? & ? & ? & ? & ? & ? & ?).
  intros Hinv%batch_inv_swap. by apply batch_inv_swap, batch_inv_move.
Qed.

Lemma scenario_root st d1 d2 : Inv d1 d2 st → st !! MUSIC_DIR = Some Dir.
Proof using All.
  destruct scenario_sources as (HS1 & HS2 & HS3).
  intros (Hframe & _). rewrite Hframe; [done|].
  rewrite !elem_of_cons, elem_of_nil.
  intros [Heq|[Heq|[Heq|[Heq|[Heq|[Heq|[Heq|[Heq|[]]]]]]]]];
    rewrite Heq in Hroot; congruence.
Qed.

Lemma scenario_third_kept st d1 d2 : Inv d1 d2 st → st !! S3 = s !! S3.
Proof using All.
  destruct scenario_sources as (HS1 & HS2 & HS3).
  destruct scenario_distinct as (? & ? & ? & _).
  intros (Hframe & _). apply Hframe.
  rewrite !elem_of_cons, elem_of_nil.
  intros [Heq|[Heq|[Heq|[Heq|[Heq|[Heq|[Heq|[Heq|[]]]]]]]]]; try done;
    rewrite Heq in HS3; congruence.
Qed.

Lemma scenario_third st d1 d2 :
  Inv d1 d2 st → sys_mutagen_File S3 st = inr (Some f3).
Proof using All.
  intros Hinv. change (sys_mutagen_File S3 st) with (mutagen_File S3 st).
  by rewrite (mutagen_File_lookup _ _ s) by by eapply scenario_third_kept.
Qed.

(** The first track as an entry of the loop. *)
Lemma scenario_entry1 dry c st lg d2 :
  Inv false (d2 && negb dry) st →
  ∃ st' lg',
    unflatten_entry dry c n1 (World st lg) =
    (Return (Counters (count c + 1) (jpg_count c) (file_existed_count c)), World st' lg') ∧
    Inv (negb dry) (d2 && negb dry) st' ∧
    (dry = true → st' = st) ∧
    errors lg' = errors lg ∧ (∀ r, r ∈ lg → r ∈ lg') ∧ (INFO, Handling n1) ∈ lg'.
Proof using All.
  intros Hinv. pose proof (scenario_root _ _ _ Hinv) as Hmusic.
  pose proof Hinv as (Hframe & (HT & HS & HA & HB) & Hother).
  destruct (reference_entry_moved dry c n1 f1 m1 a1 st lg) as (lg' & Hrun & Hlog);
    try done.
  - by rewrite (mutagen_File_lookup _ _ s).
  - destruct HA as [?|[_ ?]]; auto.
  - destruct HB as [?|[_ ?]]; auto.
  - destruct Hlog as (Herr & Hmono & Hhandled).
    eexists _, lg'. split_and!; [exact Hrun| |by intros ->|done..].
    destruct dry; [exact Hinv|]. by apply scenario_inv_move1.
Qed.

Lemma scenario_entry2 dry c st lg d1 :
  Inv (d1 && negb dry) false st →
  ∃ st' lg',
    unflatten_entry dry c n2 (World st lg) =
    (Return (Counters (count c + 1) (jpg_count c) (file_existed_count c)), World st' lg') ∧
    Inv (d1 && negb dry) (negb dry) st' ∧
    (dry = true → st' = st) ∧
    errors lg' = errors lg ∧ (∀ r, r ∈ lg → r ∈ lg') ∧ (INFO, Handling n2) ∈ lg'.
Proof using All.
  intros Hinv. pose proof (scenario_root _ _ _ Hinv) as Hmusic.
  pose proof Hinv as (Hframe & Hother & (HT & HS & HA & HB)).
  destruct (reference_entry_moved dry c n2 f2 m2 a2 st lg) as (lg' & Hrun & Hlog);
    try done.
  - by rewrite (mutagen_File_lookup _ _ s).
  - destruct HA as [?|[_ ?]]; auto.
  - destruct HB as [?|[_ ?]]; auto.
  - destruct Hlog as (Herr & Hmono & Hhandled).
    eexists _, lg'. split_and!; [exact Hrun| |by intros ->|done..].
    destruct dry; [exact Hinv|]. by apply scenario_inv_move2.
Qed.

Lemma scenario_names : n1 ≠ n2 ∧ n3 ≠ n1 ∧ n3 ≠ n2.
Proof using All.
  destruct scenario_distinct as (? & ? & ? & _). split_and!; congruence.
Qed.

(** The loop over the entries in any order: [d1] and [d2] tell which of
    the two tracks are behind, [rest] are the entries that are not moved:
    the track without artist and the names that are not audio files. *)
Lemma scenario_loop dry l : ∀ d1 d2 rest c w,
  Inv (d1 && negb dry) (d2 && negb dry) (fs w) →
  l ≡ₚ (if d1 then [] else [n1]) ++ (if d2 then [] else [n2]) ++ rest →
  Forall (λ x, x ≠ n1 ∧ x ≠ n2 ∧ (x = n3 ∨ endswith x (py "mp3") = false)) rest →
  ∃ w',
    for_each (unflatten_entry dry) l c w =
    (Return (Counters
               (count c + length ((if d1 then [] else [n1]) ++ (if d2 then [] else [n2])))
               (jpg_count c + length (image_names rest))
               (file_existed_count c)), w') ∧
    Inv (negb dry) (negb dry) (fs w') ∧
    (dry = true → fs w' = fs w) ∧
    errors (log w') = (errors (log w) + length (audio_names rest))%nat ∧
    (∀ r, r ∈ log w → r ∈ log w') ∧
    (∀ x, x ∈ l → endswith x (py "mp3") = true → (INFO, Handling x) ∈ log w') ∧
    (n3 ∈ l → (ERROR, ErrorWith n3 (KeyError ARTIST)) ∈ log w').
Proof using All.
  destruct scenario_names as (Hn12 & Hn31 & Hn32).
  induction l as [|x l IH]; intros d1 d2 rest c w Hinv Hperm Hrest.
  - symmetry in Hperm. apply Permutation_nil_r in Hperm.
    destruct d1; [|done]. destruct d2; [|done]. cbn [app] in Hperm. subst rest.
    exists w. rewrite !andb_true_l in Hinv. split_and!; try done.
    + destruct c as [k j e]. change (image_names []) with (@nil text).
      cbn [for_each mret M_ret count jpg_count file_existed_count app length].
      by rewrite !Nat.add_0_r.
    + by intros x ?%elem_of_nil.
    + by intros ?%elem_of_nil.
  - cbn [for_each]. rewrite bind_run. destruct w as [st lg]. cbn [fs log] in *.
    destruct (decide (x = n1)) as [->|Hx1]; [|destruct (decide (x = n2)) as [->|Hx2]].
    + (* the first track *)
      destruct d1.
      { exfalso. assert (Hin : n1 ∈ (if d2 then [] else [n2]) ++ rest).
        { rewrite <- Hperm. by left. }
        apply elem_of_app in Hin as [Hin|Hin].
        - destruct d2; [by apply elem_of_nil in Hin|].
          by apply list_elem_of_singleton in Hin.
        - rewrite Forall_forall in Hrest. by destruct (Hrest _ Hin) as [? _]. }
      cbn [app] in Hperm. apply Permutation_cons_inv in Hperm.
      destruct (scenario_entry1 dry c st lg d2 Hinv)
        as (st' & lg' & -> & Hinv' & Hdry & Herr & Hmono & Hhandled).
      destruct (IH true d2 rest
                  (Counters (count c + 1) (jpg_count c) (file_existed_count c))
                  (World st' lg')) as (w' & -> & Hfin); [by destruct dry|done..|].
      destruct Hfin as (Hinv2 & Hdry2 & Herr2 & Hmono2 & Hhandled2 & Herror2).
      cbn [fs log count jpg_count file_existed_count app length] in *.
      exists w'. split_and!; try done.
      * do 3 f_equal. lia.
      * intros ->. by rewrite Hdry2, Hdry.
      * by rewrite Herr2, Herr.
      * auto.
      * intros y [->|Hy]%elem_of_cons Hmp3; auto.
      * intros [?|Hin]%elem_of_cons; [done|auto].
    + (* the second track *)
      destruct d2.
      { exfalso. assert (Hin : n2 ∈ (if d1 then [] else [n1]) ++ rest).
        { rewrite app_nil_l in Hperm. rewrite <- Hperm. by left. }
        apply elem_of_app in Hin as [Hin|Hin].
        - destruct d1; [by apply elem_of_nil in Hin|].
          by apply list_elem_of_singleton in Hin.
        - rewrite Forall_forall in Hrest. by destruct (Hrest _ Hin) as (_ & ? & _). }
      assert (Hperm' : l ≡ₚ (if d1 then [] else [n1]) ++ [] ++ rest).
      { apply (Permutation_cons_inv (a := n2)). rewrite Hperm.
        destruct d1; [done|]. cbn. apply perm_swap. }
      destruct (scenario_entry2 dry c st lg d1 Hinv)
        as (st' & lg' & -> & Hinv' & Hdry & Herr & Hmono & Hhandled).
      destruct (IH d1 true rest
                  (Counters (count c + 1) (jpg_count c) (file_existed_count c))
                  (World st' lg')) as (w' & -> & Hfin); [by destruct dry|done..|].
      destruct Hfin as (Hinv2 & Hdry2 & Herr2 & Hmono2 & Hhandled2 & Herror2).
      rewrite !length_app in *.
      cbn [fs log count jpg_count file_existed_count app length] in *.
      exists w'. split_and!; try done.
      * do 3 f_equal. lia.
      * intros ->. by rewrite Hdry2, Hdry.
      * by rewrite Herr2, Herr.
      * auto.
      * intros y [->|Hy]%elem_of_cons Hmp3; auto.
      * intros [?|Hin]%elem_of_cons; [done|auto].
    + (* an entry that is not moved *)
      assert (Hin : x ∈ rest).
      { assert (Hin : x ∈ (if d1 then [] else [n1]) ++ (if d2 then [] else [n2]) ++ rest).
        { rewrite <- Hperm. by left. }
        rewrite !elem_of_app in Hin. destruct Hin as [Hin|[Hin|Hin]]; [| |done].
        - destruct d1; [by apply elem_of_nil in Hin|].
          by apply list_elem_of_singleton in Hin.
        - destruct d2; [by apply elem_of_nil in Hin|].
          by apply list_elem_of_singleton in Hin. }
      apply elem_of_Permutation in Hin as [rest' Hrest'].
      rewrite Hrest' in Hrest. apply Forall_cons in Hrest as [(_ & _ & Hx) Hrest].
      assert (Hperm' : l ≡ₚ (if d1 then [] else [n1]) ++ (if d2 then [] else [n2]) ++ rest').
      { apply (Permutation_cons_inv (a := x)). rewrite Hperm, Hrest'.
        by rewrite !Permutation_middle. }
      destruct (decide (endswith x (py "mp3") = true)) as [Hmp3|Hmp3].
      * (* the track without artist *)
        destruct Hx as [->|Hx]; [|congruence].
        assert (Hstep : unflatten_entry dry c n3 (World st lg) =
          (Return c, World st (lg ++ [(INFO, Handling n3);
                                      (ERROR, ErrorWith n3 (KeyError ARTIST))]))).
        { unfold unflatten_entry. rewrite Hmp3.
          apply (unflatten_audio_entry_missing_artist dry c n3 f3 m3); [|done..].
          by apply (scenario_third _ _ _ Hinv). }
        rewrite Hstep.
        destruct (IH d1 d2 rest' c (World st (lg ++ [(INFO, Handling n3);
                     (ERROR, ErrorWith n3 (KeyError ARTIST))]))) as (w' & -> & Hfin);
          [done..|].
        destruct Hfin as (Hinv2 & Hdry2 & Herr2 & Hmono2 & Hhandled2 & Herror2).
        cbn [fs log] in *. exists w'.
        assert (Himg : length (image_names rest) = length (image_names rest')).
        { unfold image_names. rewrite Hrest', filter_cons, decide_False; [done|].
          by rewrite (audio_is_no_image _ Hmp3). }
        assert (Haud : length (audio_names rest) = S (length (audio_names rest'))).
        { unfold audio_names. by rewrite Hrest', filter_cons, decide_True. }
        split_and!; try done.
        -- by rewrite Himg.
        -- rewrite Herr2, Haud. rewrite errors_app.
           change [(INFO, Handling n3); (ERROR, ErrorWith n3 (KeyError ARTIST))]
             with ([(INFO, Handling n3)] ++ [(ERROR, ErrorWith n3 (KeyError ARTIST))]).
           count_errors. lia.
        -- intros r Hr. apply Hmono2. rewrite elem_of_app. auto.
        -- intros y [->|Hy]%elem_of_cons Hy3; [|auto].
           apply Hmono2. rewrite elem_of_app. right. by left.
        -- intros _. apply Hmono2. rewrite elem_of_app. right. right. by left.
      * (* a name that is not an audio file *)
        apply not_true_is_false in Hmp3.
        assert (Hstep : unflatten_entry dry c x (World st lg) =
          (Return (if endswith x (py "jpg")
                   then Counters (count c) (jpg_count c + 1) (file_existed_count c)
                   else c), World st lg)).
        { unfold unflatten_entry. rewrite Hmp3. by destruct (endswith x (py "jpg")). }
        rewrite Hstep.
        destruct (IH d1 d2 rest'
                    (if endswith x (py "jpg")
                     then Counters (count c) (jpg_count c + 1) (file_existed_count c)
                     else c) (World st lg)) as (w' & -> & Hfin); [done..|].
        destruct Hfin as (Hinv2 & Hdry2 & Herr2 & Hmono2 & Hhandled2 & Herror2).
        cbn [fs log] in *. exists w'.
        assert (Haud : length (audio_names rest) = length (audio_names rest')).
        { unfold audio_names. rewrite Hrest', filter_cons, decide_False; [done|].
          by rewrite Hmp3. }
        split_and!; try done.
        -- unfold image_names. rewrite Hrest', filter_cons.
           destruct (endswith x (py "jpg")) eqn:Hjpg.
           ++ rewrite decide_True by done.
              cbn [count jpg_count file_existed_count length]. do 3 f_equal. lia.
           ++ rewrite decide_False by done. done.
        -- by rewrite Haud.
        -- intros y [->|Hy]%elem_of_cons Hy3; [congruence|auto].
        -- intros [->|Hy]%elem_of_cons; [congruence|auto].
Qed.

End Scenario_general.


(** ** Instances on the reference file system *)

Import Examples.



Lemma mkdir_exists p s s' : RefFS.mkdir p s = inr s' → RefFS.exists_ p s' = true.
Proof.
  unfold RefFS.mkdir, RefFS.exists_.
  destruct (RefFS.representable p); [|done]. cbn [negb andb].
  destruct (bool_decide _); [done|].
  destruct (s !! RefFS.dirname p) as [[]|]; try done.
  intros [= <-]. apply bool_decide_eq_true. rewrite lookup_insert_eq. eauto.
Qed.

Lemma confirm_or_create_dir_idempotent_witness :
  (confirm_or_create_dir (in_music (py "Moby"));; confirm_or_create_dir (in_music (py "Moby")))
    flat
  = confirm_or_create_dir (in_music (py "Moby")) flat.
Proof.
  exact (confirm_or_create_dir_idempotent (in_music (py "Moby")) flat
           (mkdir_exists (in_music (py "Moby")))).
Defined.

(** The move of a source that is not there fails at [os.rename], after the
    two directories were made. *)
Lemma unflatten_track_file_raises_witness :
  ∃ loc oe,
    (plan_track_file track_one MUSIC_DIR flat).1 = Return loc ∧
    OSError FileNotFoundError = exception_of oe ∧
    (sys_mkdir (artist_dir loc)
       (fs (unflatten_track_file track_one gone MUSIC_DIR false flat).2) = inl oe
     ∨ sys_mkdir (album_dir loc)
         (fs (unflatten_track_file track_one gone MUSIC_DIR false flat).2) = inl oe
     ∨ sys_rename gone (track_new_path loc)
         (fs (unflatten_track_file track_one gone MUSIC_DIR false flat).2) = inl oe).
Proof.
  destruct (unflatten_track_file_raises track_one gone MUSIC_DIR false flat
              (OSError FileNotFoundError)
              (unflatten_track_file track_one gone MUSIC_DIR false flat).2)
    as [[_ [[_ H]|[(f & _ & _ & H)|(f & m & _ & _ & _ & H)]]]
       |(_ & loc & w1 & oe & Hp & _ & _ & He & Hcall & _)].
  - compute_done.
  - discriminate H.
  - discriminate H.
  - discriminate H.
  - exists loc, oe. rewrite Hp. split_and!; [done|exact He|exact Hcall].
Defined.

Lemma planned_paths_nest_witness :
  let loc := returned (plan_track_file track_one MUSIC_DIR flat).1 (Locations [] [] []) in
  MUSIC_DIR `prefix_of` artist_dir loc ∧
  artist_dir loc `prefix_of` album_dir loc ∧
  album_dir loc `prefix_of` track_new_path loc ∧
  track_new_path loc ≠ album_dir loc ∧
  endswith (track_new_path loc) (py ".mp3") = true.
Proof.
  refine (planned_paths_nest track_one MUSIC_DIR flat _
            (plan_track_file track_one MUSIC_DIR flat).2 _).
  compute_done.
Defined.

Lemma blank_artist_is_accepted_witness :
  ∃ lg, plan_track_file (Some {| filename := copy; tags := Some tags_blank_artist |})
          MUSIC_DIR flat =
    (Return {|
       artist_dir := MUSIC_DIR ++ sep_after MUSIC_DIR;
       album_dir := os_path_join MUSIC_DIR [album_segment tags_blank_artist];
       track_new_path :=
         os_path_join MUSIC_DIR
           [album_segment tags_blank_artist; track_file_name tags_blank_artist] |},
     World (fs flat) lg).
Proof.
  refine (blank_artist_is_accepted {| filename := copy; tags := Some tags_blank_artist |}
            tags_blank_artist (py "  ") MUSIC_DIR flat _ _ _).
  - reflexivity.
  - compute_done.
  - compute_done.
Defined.

Lemma colliding_track_is_skipped_witness :
  ∃ lg,
    unflatten_track_file track_copy copy MUSIC_DIR false
      (unflatten_track_file track_one (in_music one) MUSIC_DIR false flat).2
    = (Return false,
       World (fs (unflatten_track_file track_one (in_music one) MUSIC_DIR false flat).2) lg).
Proof.
  refine (colliding_track_is_skipped track_one track_copy (in_music one) copy MUSIC_DIR
            false flat _
            (returned (plan_track_file track_one MUSIC_DIR flat).1 (Locations [] [] []))
            (returned (plan_track_file track_copy MUSIC_DIR flat).1 (Locations [] [] []))
            (plan_track_file track_one MUSIC_DIR flat).2
            (plan_track_file track_copy MUSIC_DIR flat).2 _ _ _ _); compute_done.
Defined.

Lemma untitled_tracks_collide_witness :
  ∃ lg,
    unflatten_track_file (Some {| filename := in_music two; tags := Some tags_untitled |})
      (in_music two) MUSIC_DIR false
      (unflatten_track_file (Some {| filename := in_music one; tags := Some tags_untitled |})
         (in_music one) MUSIC_DIR false flat).2
    = (Return false,
       World (fs (unflatten_track_file
                    (Some {| filename := in_music one; tags := Some tags_untitled |})
                    (in_music one) MUSIC_DIR false flat).2) lg).
Proof.
  refine (proj2 (untitled_tracks_collide
            {| filename := in_music one; tags := Some tags_untitled |}
            {| filename := in_music two; tags := Some tags_untitled |}
            tags_untitled tags_untitled (py "Moby") (in_music one) (in_music two)
            MUSIC_DIR false flat _ _ _ _ _ _ _ _) _); try reflexivity; compute_done.
Defined.

Lemma batch_accounting_witness :
  ∃ files report,
    sys_listdir MUSIC_DIR (fs flat) = inr files ∧
    last (log (mutagen_dialect_unflatten false flat).2) = Some (INFO, Finished report) ∧
    TOTAL_FILES report = length files ∧
    JPG_FILES report = length (image_names files) ∧
    (MP3_FILES_MOVED report + MP3_FILES_EXISTED report
       + errors (log (mutagen_dialect_unflatten false flat).2)
     = errors (log flat) + length (audio_names files))%nat.
Proof.
  refine (batch_accounting false flat (mutagen_dialect_unflatten false flat).2 _).
  compute_done.
Defined.

Lemma batch_stops_at_untagged_file_witness :
  mutagen_dialect_unflatten false untagged =
  (Raise TypeError,
   World (fs untagged) ((log untagged ++ [(INFO, Initiating)]) ++ [(INFO, Handling raw)])).
Proof.
  refine (batch_stops_at_untagged_file false untagged [] raw [] (Counters 0 0 0)
            (World (fs untagged) (log untagged ++ [(INFO, Initiating)]))
            (Some {| filename := in_music raw; tags := None |}) _ _ _ _ _).
  - vm_compute. reflexivity.
  - reflexivity.
  - reflexivity.
  - vm_compute. reflexivity.
  - right. eexists. split; reflexivity.
Defined.

Lemma repair_of_flat_directory_witness :
  fix_missing_file_extensions MUSIC_DIR false flat = (Return (), flat).
Proof.
  refine (repair_of_flat_directory MUSIC_DIR false flat [two; one; three; cover; back] _ _).
  - compute_done.
  - apply Forall_forall. compute_done.
Defined.
